(** * Parity testing harness (scripts/parity_test.py)

    A shallow embedding of the comparison engine and run orchestrator of
    the Source 1.5 visual-regression harness, and the properties its
    specification states about them.

    Python floats and numpy's float64 are IEEE binary64 values: they are
    modelled by Rocq's primitive floats, so each operation rounds as
    IEEE 754 prescribes. *)

From Stdlib Require Import Ascii String ZArith List Bool Lia Floats Uint63.
From stdpp Require Import base option list strings pretty gmap.

Set Default Proof Using "Type".
Set Warnings "-inexact-float".
Local Open Scope Z_scope.

(** ** Exceptions and results *)

Inductive exn : Type :=
  | KeyError (key : string)
  | ValueError (msg : string)
  | UnidentifiedImageError (path : string)
  | IsADirectoryError (path : string)
  | FileExistsError (path : string)
  | NotADirectoryError (path : string).

Inductive result (A : Type) : Type :=
  | Ok (a : A)
  | Raised (e : exn).
Arguments Ok {A} a.
Arguments Raised {A} e.

(** ** Floats as Python uses them *)

Module Py.

(** [min(a, b)]: the first argument is kept unless [b < a]. *)
Definition min (a b : float) : float := if PrimFloat.ltb b a then b else a.

(** [max(a, b)]: the first argument is kept unless [b > a]. *)
Definition max (a b : float) : float := if PrimFloat.ltb a b then b else a.

(** [x >= y]. *)
Definition ge (x y : float) : bool := PrimFloat.leb y x.

(** [float(n)] for a non-negative machine-size integer. *)
Definition float_of_Z (z : Z) : float := PrimFloat.of_uint63 (Uint63.of_Z z).

Definition float_of_nat (n : nat) : float := float_of_Z (Z.of_nat n).

End Py.

(** [0.0 <= x <= 1.0] in IEEE comparison (false for a NaN). *)
Definition in_unit_interval (x : float) : Prop :=
  PrimFloat.leb 0 x = true /\ PrimFloat.leb x 1 = true.

(** ** Images and arrays *)

(** The PIL modes a TGA screenshot can have. *)
Inductive Mode : Type := L | RGB | RGBA.

Definition bands (m : Mode) : nat :=
  match m with L => 1%nat | RGB => 3%nat | RGBA => 4%nat end.

#[global] Instance Mode_eq_dec : EqDecision Mode.
Proof. solve_decision. Defined.

(** A decoded image: one entry of [im_data] per pixel, row after row, each
    entry holding the pixel's band values (0..255). *)
Record Image : Type := mkImage {
  im_mode : Mode;
  im_height : nat;
  im_width : nat;
  im_data : list (list Z);
}.

Definition valid_image (img : Image) : Prop :=
  length (im_data img) = (im_height img * im_width img)%nat /\
  Forall (fun px => length px = bands (im_mode img) /\
                    Forall (fun v => 0 <= v <= 255) px) (im_data img).

(** A two-dimensional array ([ndarray] of shape [(rows, cols)]), cells row
    after row. *)
Record array2 (A : Type) : Type := mkArray2 {
  rows : nat;
  cols : nat;
  cells : list A;
}.
Arguments mkArray2 {A} _ _ _.
Arguments rows {A} _.
Arguments cols {A} _.
Arguments cells {A} _.

Definition wf_array2 {A} (a : array2 A) : Prop :=
  length (cells a) = (rows a * cols a)%nat.

Definition same_shape {A B} (a : array2 A) (b : array2 B) : Prop :=
  rows a = rows b /\ cols a = cols b.

(** PIL's luminance of one pixel ([Image.convert('L')], the ITU-R 601-2
    luma transform in 16-bit fixed point); alpha is ignored. *)
Definition luma (m : Mode) (px : list Z) : Z :=
  match m with
  | L => nth 0 px 0
  | RGB | RGBA =>
      Z.shiftr (nth 0 px 0 * 19595 + nth 1 px 0 * 38470 + nth 2 px 0 * 7471
                + 32768) 16
  end.

(** [np.array(img.convert('L'))]: a [uint8] array of shape
    [(height, width)]. *)
Definition luminance (img : Image) : array2 Z :=
  mkArray2 (im_height img) (im_width img) (map (luma (im_mode img)) (im_data img)).

(** [np.array(img)]: shape [(height, width)] for mode L and
    [(height, width, bands)] otherwise, with the flattened band values. *)
Definition np_shape (img : Image) : list nat :=
  match im_mode img with
  | L => [im_height img; im_width img]
  | m => [im_height img; im_width img; bands m]
  end.

Definition np_flat (img : Image) : list Z := concat (im_data img).

(** ** The numpy reductions the metrics use *)

Module Np.

(** [acc += x] for each [x], in order. *)
Definition add_all (acc : float) (xs : list float) : float :=
  fold_left PrimFloat.add xs acc.

(** The eight running sums of numpy's unrolled loop: each group of eight
    values is added to them lane by lane. *)
Fixpoint add_lanes (groups : nat) (r xs : list float) : list float :=
  match groups with
  | O => r
  | S groups' =>
      add_lanes groups' (zip_with PrimFloat.add r (take 8 xs)) (drop 8 xs)
  end.

(** A block of 8 to 128 values: eight running sums over the multiples of
    eight, combined pairwise, then the rest one by one. *)
Definition sum_block (xs : list float) : float :=
  let n := length xs in
  let whole := (n - n mod 8)%nat in
  let r := add_lanes (whole / 8 - 1) (take 8 xs) (drop 8 xs) in
  let lane i := nth i r 0%float in
  add_all (((lane 0%nat + lane 1%nat) + (lane 2%nat + lane 3%nat))
           + ((lane 4%nat + lane 5%nat) + (lane 6%nat + lane 7%nat)))%float
          (drop whole xs).

(** numpy's pairwise summation ([DOUBLE_pairwise_sum]): fewer than eight
    values are added from the left, starting from -0.0; up to 128 values
    form one block; a longer input is split near its middle, at a
    multiple of eight. [fuel] bounds the depth of the splitting, and the
    length of the input is always enough ([pairwise_sum_fuel]). *)
Fixpoint pairwise_sum (fuel : nat) (xs : list float) : float :=
  let n := length xs in
  if (n <? 8)%nat then add_all PrimFloat.neg_zero xs
  else if (n <=? 128)%nat then sum_block xs
  else
    match fuel with
    | O => PrimFloat.nan
    | S fuel' =>
        let n2 := (n / 2 - (n / 2) mod 8)%nat in
        (pairwise_sum fuel' (take n2 xs) + pairwise_sum fuel' (drop n2 xs))%float
    end.

(** [np.sum] over a float64 array: the pairwise sum of all its values,
    added to the accumulator, which starts at 0. *)
Definition sum (xs : list float) : float :=
  (0 + pairwise_sum (length xs) xs)%float.

(** [np.mean] of a float64 array: the sum divided by the number of
    values. *)
Definition mean (xs : list float) : float :=
  (sum xs / Py.float_of_nat (length xs))%float.

(** [uint8] cells read as float64 (the accumulator type of [np.mean] and
    [np.std] on integer arrays). *)
Definition as_float (xs : list Z) : list float := map Py.float_of_Z xs.

(** The number of values numpy converts at a time when the accumulator
    has another type than the array (its buffer size). *)
Definition bufsize : nat := (64 * 128)%nat.

(** The sum of a [uint8] array with a float64 accumulator: the values
    are converted buffer by buffer, and the pairwise sum of each buffer
    is added to the accumulator. [fuel] bounds the number of buffers, and
    the length of the input is always enough ([sum_buffered_fuel]). *)
Fixpoint sum_buffered (fuel : nat) (acc : float) (xs : list float) : float :=
  match xs, fuel with
  | [], _ | _, O => acc
  | _, S fuel' =>
      sum_buffered fuel' (acc + pairwise_sum bufsize (take bufsize xs))%float
        (drop bufsize xs)
  end.

(** [np.mean] of a [uint8] array. *)
Definition mean_uint8 (xs : list Z) : float :=
  (sum_buffered (length xs) 0 (as_float xs) / Py.float_of_nat (length xs))%float.

(** [arr - m] for a [uint8] array and a float64 scalar. *)
Definition sub_scalar (a : array2 Z) (m : float) : array2 float :=
  mkArray2 (rows a) (cols a)
           (map (fun v => (Py.float_of_Z v - m)%float) (cells a)).

(** [np.std]: square root of the mean squared deviation from the mean. *)
Definition std (xs : list Z) : float :=
  let m := mean_uint8 xs in
  PrimFloat.sqrt
    (mean (map (fun v => let d := (Py.float_of_Z v - m)%float in (d * d)%float) xs)).

(** Broadcasting of one axis: equal lengths, or one of them is 1. *)
Definition broadcast_dim (a b : nat) : option nat :=
  if (a =? b)%nat then Some a
  else if (a =? 1)%nat then Some b
  else if (b =? 1)%nat then Some a
  else None.

(** Cell [(i, j)] of an array seen through broadcasting: an axis of
    length 1 is read at index 0. *)
Definition bcell (a : array2 float) (i j : nat) : float :=
  nth ((if (rows a =? 1)%nat then 0 else i) * cols a
       + (if (cols a =? 1)%nat then 0 else j))%nat (cells a) PrimFloat.nan.

(** [a * b] on two-dimensional arrays: [ValueError] when the shapes do
    not broadcast together. *)
Definition multiply (a b : array2 float) : result (array2 float) :=
  match broadcast_dim (rows a) (rows b), broadcast_dim (cols a) (cols b) with
  | Some h, Some w =>
      Ok (mkArray2 h w
            (flat_map (fun i => map (fun j => (bcell a i j * bcell b i j)%float)
                                    (seq 0 w))
                      (seq 0 h)))
  | _, _ => Raised (ValueError "operands could not be broadcast together")
  end.

(** [np.array_equal] on [uint8] arrays: same shape and same cells. *)
Definition array_equal (a b : array2 Z) : bool :=
  (rows a =? rows b)%nat && (cols a =? cols b)%nat
  && bool_decide (cells a = cells b).

End Np.

(** ** The two metrics *)

Section Metrics.

(** Whether PIL and numpy could be imported at start-up. *)
Variable HAS_PIL : bool.

(** [ParityTester.calculate_ssim]. *)
Definition calculate_ssim (img1 img2 : Image) : result float :=
  if negb HAS_PIL then Ok 0%float
  else
    let arr1 := luminance img1 in
    let arr2 := luminance img2 in
    let mean1 := Np.mean_uint8 (cells arr1) in
    let mean2 := Np.mean_uint8 (cells arr2) in
    let std1 := Np.std (cells arr1) in
    let std2 := Np.std (cells arr2) in
    match Np.multiply (Np.sub_scalar arr1 mean1) (Np.sub_scalar arr2 mean2) with
    | Raised e => Raised e
    | Ok prod =>
        let cov := Np.mean (cells prod) in
        if PrimFloat.eqb std1 0 || PrimFloat.eqb std2 0 then
          Ok (if Np.array_equal arr1 arr2 then 1%float else 0%float)
        else
          let ssim := (cov / (std1 * std2))%float in
          Ok (Py.max 0 (Py.min 1 ssim))
    end.

End Metrics.

(** ** Configuration and outcomes *)

Module Position.
(** One entry of [test_positions]; [ssim_threshold] is the optional
    key read with [position.get('ssim_threshold', 0.95)]. *)
Record t : Type := mk {
  name : string;
  x : float;
  y : float;
  z : float;
  pitch : float;
  yaw : float;
  ssim_threshold : option float;
}.
End Position.

Module ParityConfig.
Record t : Type := mk {
  map_name : string;
  game_dir : string;
  screenshot_dir : string;
  golden_dir : string;
  test_positions : list Position.t;
  cvars : list (string * string);
  timeout : Z;
}.
End ParityConfig.

Module ComparisonResult.
Record t : Type := mk {
  map_name : string;
  position : string;
  ssim : float;
  mse : float;
  passed : bool;
  threshold : float;
}.
End ComparisonResult.

(** ** The world the harness runs in *)

Inductive file : Type :=
  | ImageFile (img : Image)     (* a file PIL decodes to [img] *)
  | TextFile (text : string)
  | OtherFile.                  (* any file PIL cannot identify *)

(** What the console shows, one constructor per [print] of the script. *)
Inductive message : Type :=
  | MsgLaunching (position : string)
  | MsgExeNotFound (path : string)
  | MsgCommand
  | MsgCaptured (screenshot : string)
  | MsgScreenshotNotFound (path : string)
  | MsgTimedOut (seconds : Z)
  | MsgLaunchFailed
  | MsgNoPIL
  | MsgComparing (position : string)
  | MsgTestNotFound (path : string)
  | MsgGoldenNotFound (path : string)
  | MsgCreatingGolden
  | MsgLoadFailed
  | MsgDimensionsDontMatch
  | MsgSSIM (ssim threshold : float)
  | MsgMSE (mse : float)
  | MsgVerdict (passed : bool)
  | MsgReportGenerated (path : string)
  | MsgBanner (map : string) (positions : nat)
  | MsgSkipping (position : string)
  | MsgSummary (total passed failed : nat).

Inductive event : Type :=
  | Printed (m : message)
  | ProcessKilled (position : string).    (* [process.kill()] *)

(** How one run of the application under test ends, with the files it
    left behind. *)
Inductive proc_outcome : Type :=
  | Exited (files' : gmap string file)     (* ended within the timeout *)
  | TimedOut (files' : gmap string file)   (* [wait] raised TimeoutExpired *)
  | SpawnFailed.                           (* [Popen] raised *)

(** The file system, the console and the tester's [results] attribute.
    [files] maps the paths of the regular files to what they hold and
    [dirs] lists the directories; writing a file is taken to succeed. *)
Record State : Type := mkState {
  files : gmap string file;
  dirs : gset string;
  console : list event;                 (* oldest first *)
  results : list ComparisonResult.t;    (* [self.results] *)
  launches : nat;                       (* processes started so far *)
}.

Definition with_files (fs : gmap string file) (s : State) : State :=
  mkState fs (dirs s) (console s) (results s) (launches s).
Definition with_dirs (ds : gset string) (s : State) : State :=
  mkState (files s) ds (console s) (results s) (launches s).
Definition with_console (c : list event) (s : State) : State :=
  mkState (files s) (dirs s) c (results s) (launches s).
Definition with_results (rs : list ComparisonResult.t) (s : State) : State :=
  mkState (files s) (dirs s) (console s) rs (launches s).
Definition with_launches (n : nat) (s : State) : State :=
  mkState (files s) (dirs s) (console s) (results s) n.

(** ** A state-and-exception monad *)

Definition M (A : Type) : Type := State -> result A * State.

Definition ret {A} (a : A) : M A := fun s => (Ok a, s).

Definition bind {A B} (m : M A) (k : A -> M B) : M B :=
  fun s => match m s with
           | (Ok a, s') => k a s'
           | (Raised e, s') => (Raised e, s')
           end.

Definition raise {A} (e : exn) : M A := fun s => (Raised e, s).

Definition lift {A} (r : result A) : M A := fun s => (r, s).

(** [try: m  except Exception: h]. *)
Definition try_except {A} (m : M A) (h : exn -> M A) : M A :=
  fun s => match m s with
           | (Ok a, s') => (Ok a, s')
           | (Raised e, s') => h e s'
           end.

Declare Scope py_scope.
Delimit Scope py_scope with py.
Notation "'do' x <- m ; k" := (bind m (fun x => k))
  (at level 10, x name, m at level 100, k at level 200) : py_scope.
Notation "m ;; k" := (bind m (fun _ => k))
  (at level 100, k at level 200, right associativity) : py_scope.
Local Open Scope py_scope.

Definition get : M State := fun s => (Ok s, s).
Definition emit (e : event) : M unit :=
  fun s => (Ok tt, with_console (console s ++ [e]) s).
Definition print (m : message) : M unit := emit (Printed m).

(** [for x in xs: body x]. *)
Fixpoint for_each {A} (xs : list A) (body : A -> M unit) : M unit :=
  match xs with
  | [] => ret tt
  | a :: rest => body a ;; for_each rest body
  end.

(** ** Paths and files *)

(** [dir / name]. *)
Definition path_join (dir name : string) : string := dir +:+ "/" +:+ name.

(** [Path.exists]. *)
Definition path_exists (s : State) (p : string) : bool :=
  match files s !! p with
  | Some _ => true
  | None => bool_decide (p ∈ dirs s)
  end.

(** The parents of a path, outermost first: what stands before each
    of its separators. *)
Fixpoint parents_from (seen rest : string) : list string :=
  match rest with
  | EmptyString => []
  | String c rest' =>
      (if Ascii.eqb c "/" && negb (String.eqb seen "") then [seen] else [])
      ++ parents_from (seen +:+ String c EmptyString) rest'
  end.

Definition parents (p : string) : list string := parents_from "" p.

Definition is_file (s : State) (p : string) : bool :=
  match files s !! p with
  | Some _ => true
  | None => false
  end.

(** What stops [Path.mkdir(parents=True, exist_ok=True)]: nothing when
    the directory exists; otherwise a regular file at one of the parents
    ([os.mkdir] fails with [ENOTDIR]) or at the path itself ([EEXIST],
    and the path is no directory). *)
Definition mkdir_error (s : State) (p : string) : option exn :=
  if bool_decide (p ∈ dirs s) then None
  else if existsb (is_file s) (parents p) then Some (NotADirectoryError p)
  else if is_file s p then Some (FileExistsError p)
  else None.

(** The directories [mkdir] leaves behind: the path and its parents. *)
Definition made (p : string) : gset string := {[ p ]} ∪ list_to_set (parents p).

(** [Path.mkdir(parents=True, exist_ok=True)]. *)
Definition mkdir (p : string) : M unit :=
  fun s => match mkdir_error s p with
           | Some e => (Raised e, s)
           | None => (Ok tt, with_dirs (made p ∪ dirs s) s)
           end.

(** [Image.open]. *)
Definition Image_open (p : string) : M Image :=
  fun s => match files s !! p with
           | Some (ImageFile img) => (Ok img, s)
           | Some _ => (Raised (UnidentifiedImageError p), s)
           | None => (Raised (IsADirectoryError p), s)
           end.

(** [img.save(path)]: the TGA written decodes to the same image. *)
Definition Image_save (img : Image) (p : string) : M unit :=
  fun s => (Ok tt, with_files (<[ p := ImageFile img ]> (files s)) s).

(** [open(path, 'w').write(text)]. *)
Definition write_text (p : string) (text : string) : M unit :=
  fun s => (Ok tt, with_files (<[ p := TextFile text ]> (files s)) s).

(** ** [str.format] *)

Module Format.

Inductive mode : Type :=
  | InText
  | InName (name : string)
  | InSpec (name : string) (spec : string) (depth : nat).

Definition append_char (s : string) (c : ascii) : string :=
  s +:+ String c EmptyString.

Definition is_digit (c : ascii) : bool :=
  let n := nat_of_ascii c in (48 <=? n)%nat && (n <=? 57)%nat.

Fixpoint all_digits (s : string) : bool :=
  match s with
  | EmptyString => true
  | String c rest => is_digit c && all_digits rest
  end.

Fixpoint lookup_kw (kwargs : list (string * string)) (name : string) : option string :=
  match kwargs with
  | [] => None
  | (k, v) :: rest => if String.eqb k name then Some v else lookup_kw rest name
  end.

(** The value of one replacement field: the keyword argument called
    [name]; a name that is no keyword raises [KeyError]. Positional
    fields find no argument (the script passes none), and format
    specifications are not interpreted (the report's four named fields
    carry none). *)
Definition field (kwargs : list (string * string)) (name spec : string)
  : result string :=
  if all_digits name then Raised (ValueError "positional field without argument")
  else match lookup_kw kwargs name with
       | None => Raised (KeyError name)
       | Some v =>
           if String.eqb spec "" then Ok v
           else Raised (ValueError "Invalid format specifier")
       end.

(** One left-to-right pass over the template: literal text is copied,
    [{{] and [}}] stand for braces, and [{name}] or [{name:spec}] is
    replaced by the field's value. *)
Fixpoint scan (kwargs : list (string * string)) (m : mode) (out : string)
  (template : string) : result string :=
  match template with
  | EmptyString =>
      match m with
      | InText => Ok out
      | _ => Raised (ValueError "expected '}' before end of string")
      end
  | String c rest =>
      match m with
      | InText =>
          if Ascii.eqb c "{" then
            match rest with
            | String "{" rest' => scan kwargs InText (append_char out "{") rest'
            | _ => scan kwargs (InName "") out rest
            end
          else if Ascii.eqb c "}" then
            match rest with
            | String "}" rest' => scan kwargs InText (append_char out "}") rest'
            | _ => Raised (ValueError "Single '}' encountered in format string")
            end
          else scan kwargs InText (append_char out c) rest
      | InName name =>
          if Ascii.eqb c "}" then
            match field kwargs name "" with
            | Ok v => scan kwargs InText (out +:+ v) rest
            | Raised e => Raised e
            end
          else if Ascii.eqb c ":" || Ascii.eqb c "!" then
            scan kwargs (InSpec name "" 0) out rest
          else scan kwargs (InName (append_char name c)) out rest
      | InSpec name spec depth =>
          if Ascii.eqb c "{" then
            scan kwargs (InSpec name (append_char spec c) (S depth)) out rest
          else if Ascii.eqb c "}" then
            match depth with
            | O =>
                match field kwargs name spec with
                | Ok v => scan kwargs InText (out +:+ v) rest
                | Raised e => Raised e
                end
            | S d => scan kwargs (InSpec name (append_char spec c) d) out rest
            end
          else scan kwargs (InSpec name (append_char spec c) depth) out rest
      end
  end.

(** [template.format(map_name=..., total=..., ...)]. *)
Definition format (template : string) (kwargs : list (string * string))
  : result string :=
  scan kwargs InText "" template.

End Format.

(** ** The harness *)

(** The double quote, for the attribute values of the report. *)
Definition dq : string := String (ascii_of_nat 34) EmptyString.

(** The literal that [generate_report] calls [.format] on. *)
Definition report_head : string :=
"<!DOCTYPE html>
<html>
<head>
    <title>Parity Test Report - Source 1.5</title>
    <style>
        body { font-family: Arial, sans-serif; margin: 20px; }
        h1 { color: #333; }
        .result { margin: 20px 0; padding: 10px; border: 1px solid #ddd; }
        .pass { background-color: #d4edda; }
        .fail { background-color: #f8d7da; }
        .metrics { font-family: monospace; }
        img { max-width: 800px; border: 1px solid #ccc; margin: 10px 0; }
    </style>
</head>
<body>
    <h1>Parity Test Report</h1>
    <p>Map: <strong>{map_name}</strong></p>
    <p>Total Tests: {total} | Passed: {passed} | Failed: {failed}</p>
".

Definition report_foot : string :=
"
</body>
</html>
".

Section Harness.

(** Whether PIL and numpy could be imported at start-up. *)
Variable HAS_PIL : bool.

(** The application under test: how its [n]-th launch for a position
    ends, given the files present when it starts. *)
Variable game :
  nat -> ParityConfig.t -> Position.t -> gmap string file -> proc_outcome.

(** Python's fixed-point formatting of a float ([f"{v:.4f}"]). *)
Variable format_float : nat -> float -> string.

(** [self.config]. *)
Variable config : ParityConfig.t.

Definition screenshot_name (position : Position.t) : string :=
  ParityConfig.map_name config +:+ "_" +:+ Position.name position +:+ ".tga".

Definition test_path (position : Position.t) : string :=
  path_join (ParityConfig.screenshot_dir config) (screenshot_name position).

Definition golden_path (position : Position.t) : string :=
  path_join (ParityConfig.golden_dir config) (screenshot_name position).

(** [subprocess.Popen(args)] followed by [process.wait(timeout)]. *)
Definition spawn_and_wait (position : Position.t) : M proc_outcome :=
  fun s => (Ok (game (launches s) config position (files s)),
            with_launches (S (launches s)) s).

Definition set_files (fs : gmap string file) : M unit :=
  fun s => (Ok tt, with_files fs s).

(** [ParityTester.launch_game_headless]. *)
Definition launch_game_headless (position : Position.t) : M bool :=
  print (MsgLaunching (Position.name position)) ;;
  do s <- get;
  let exe_windows := path_join (ParityConfig.game_dir config) "hl2.exe" in
  let exe_linux := path_join (ParityConfig.game_dir config) "hl2.sh" in
  let game_exe := if path_exists s exe_windows then exe_windows else exe_linux in
  if negb (path_exists s game_exe) then
    print (MsgExeNotFound game_exe) ;; ret false
  else
    print MsgCommand ;;
    do outcome <- spawn_and_wait position;
    match outcome with
    | Exited fs' =>
        set_files fs' ;;
        do s' <- get;
        if path_exists s' (test_path position) then
          print (MsgCaptured (screenshot_name position)) ;; ret true
        else
          print (MsgScreenshotNotFound (test_path position)) ;; ret false
    | TimedOut fs' =>
        set_files fs' ;;
        print (MsgTimedOut (ParityConfig.timeout config)) ;;
        emit (ProcessKilled (Position.name position)) ;;
        ret false
    | SpawnFailed =>
        print MsgLaunchFailed ;; ret false
    end.

(** [ParityTester.calculate_mse]. *)
Definition calculate_mse (img1 img2 : Image) : M float :=
  if negb HAS_PIL then ret 0%float
  else if negb (bool_decide (np_shape img1 = np_shape img2)) then
    print MsgDimensionsDontMatch ;; ret PrimFloat.infinity
  else
    ret (Np.mean (zip_with (fun a b => let d := (Py.float_of_Z a - Py.float_of_Z b)%float
                                       in (d * d)%float)
                           (np_flat img1) (np_flat img2))).

(** The threshold a position asks for:
    [position.get('ssim_threshold', 0.95)]. *)
Definition threshold_of (position : Position.t) : float :=
  default 0.95%float (Position.ssim_threshold position).

(** Lines 220-235 of [compare_screenshots]: the verdict on two computed
    metrics. *)
Definition judge (position : Position.t) (ssim mse : float)
  : M (option ComparisonResult.t) :=
  let threshold := threshold_of position in
  let passed := Py.ge ssim threshold in
  print (MsgSSIM ssim threshold) ;;
  print (MsgMSE mse) ;;
  print (MsgVerdict passed) ;;
  ret (Some (ComparisonResult.mk (ParityConfig.map_name config)
               (Position.name position) ssim mse passed threshold)).

(** [ParityTester.compare_screenshots]. *)
Definition compare_screenshots (position : Position.t)
  : M (option ComparisonResult.t) :=
  if negb HAS_PIL then
    print MsgNoPIL ;; ret None
  else
    print (MsgComparing (Position.name position)) ;;
    do s <- get;
    if negb (path_exists s (test_path position)) then
      print (MsgTestNotFound (test_path position)) ;; ret None
    else if negb (path_exists s (golden_path position)) then
      print (MsgGoldenNotFound (golden_path position)) ;;
      print MsgCreatingGolden ;;
      mkdir (ParityConfig.golden_dir config) ;;
      do img <- Image_open (test_path position);
      Image_save img (golden_path position) ;;
      ret (Some (ComparisonResult.mk (ParityConfig.map_name config)
                   (Position.name position) 1%float 0%float true 0.95%float))
    else
      do loaded <-
        try_except
          (do img_test <- Image_open (test_path position);
           do img_golden <- Image_open (golden_path position);
           ret (Some (img_test, img_golden)))
          (fun _ => print MsgLoadFailed ;; ret None);
      match loaded with
      | None => ret None
      | Some (img_test, img_golden) =>
          do ssim <- lift (calculate_ssim HAS_PIL img_test img_golden);
          do mse <- calculate_mse img_test img_golden;
          judge position ssim mse
      end.

(** The block [generate_report] appends for one result (an f-string). *)
Definition result_block (r : ComparisonResult.t) : string :=
  let status_class := if ComparisonResult.passed r then "pass" else "fail" in
  let status_text := if ComparisonResult.passed r then "PASS" else "FAIL" in
  "
    <div class=" +:+ dq +:+ "result " +:+ status_class +:+ dq +:+ ">
        <h2>" +:+ ComparisonResult.position r +:+ " - " +:+ status_text +:+ "</h2>
        <div class=" +:+ dq +:+ "metrics" +:+ dq +:+ ">
            SSIM: " +:+ format_float 4 (ComparisonResult.ssim r)
    +:+ " (threshold: " +:+ format_float 2 (ComparisonResult.threshold r) +:+ ")<br>
            MSE:  " +:+ format_float 2 (ComparisonResult.mse r) +:+ "
        </div>
        <div>
            <strong>Test:</strong><br>
            <img src=" +:+ dq +:+ ParityConfig.map_name config +:+ "_"
    +:+ ComparisonResult.position r +:+ ".tga" +:+ dq +:+ ">
        </div>
    </div>
".

Definition count_passed (rs : list ComparisonResult.t) : nat :=
  length (filter (fun r => ComparisonResult.passed r = true) rs).

Definition count_failed (rs : list ComparisonResult.t) : nat :=
  length (filter (fun r => ComparisonResult.passed r = false) rs).

(** The document [generate_report] builds from [self.results]. *)
Definition render_report (rs : list ComparisonResult.t) : result string :=
  match Format.format report_head
          [("map_name", ParityConfig.map_name config);
           ("total", pretty (length rs));
           ("passed", pretty (count_passed rs));
           ("failed", pretty (count_failed rs))] with
  | Raised e => Raised e
  | Ok html =>
      Ok (fold_left (fun html r => html +:+ result_block r) rs html
          +:+ report_foot)
  end.

(** [ParityTester.generate_report]. *)
Definition generate_report : M unit :=
  let report_path :=
    path_join (ParityConfig.screenshot_dir config) "parity_report.html" in
  do s <- get;
  do html <- lift (render_report (results s));
  write_text report_path html ;;
  print (MsgReportGenerated report_path).

(** [ParityTester.print_summary]. *)
Definition print_summary : M unit :=
  do s <- get;
  let total := length (results s) in
  let passed := count_passed (results s) in
  print (MsgSummary total passed (total - passed)).

Definition append_result (r : ComparisonResult.t) : M unit :=
  fun s => (Ok tt, with_results (results s ++ [r]) s).

(** The body of the loop of [run] for one position. *)
Definition test_position (position : Position.t) : M unit :=
  do captured <- launch_game_headless position;
  if negb captured then
    print (MsgSkipping (Position.name position))
  else
    do result <- compare_screenshots position;
    match result with
    | Some r => append_result r
    | None => ret tt
    end.

(** [all(r.passed for r in self.results)]. *)
Definition all_passed (rs : list ComparisonResult.t) : bool :=
  forallb ComparisonResult.passed rs.

(** [ParityTester.run]. *)
Definition run : M bool :=
  print (MsgBanner (ParityConfig.map_name config)
                   (length (ParityConfig.test_positions config))) ;;
  mkdir (ParityConfig.screenshot_dir config) ;;
  mkdir (ParityConfig.golden_dir config) ;;
  for_each (ParityConfig.test_positions config) test_position ;;
  do s <- get;
  (match results s with
   | [] => ret tt
   | _ :: _ => generate_report
   end) ;;
  print_summary ;;
  do s' <- get;
  ret (all_passed (results s')).

(** [ParityTester.__init__]: a tester starts with no results. *)
Definition ParityTester_init (s : State) : State := with_results [] s.

(** The status the process ends with: [sys.exit(0 if success else 1)],
    or status 1 when an exception leaves [main] uncaught. *)
Definition exit_status (r : result bool) : Z :=
  match r with
  | Ok true => 0
  | Ok false => 1
  | Raised _ => 1
  end.

(** [main], once [load_config] has produced [config] from the file at
    [config_path]. *)
Definition main (config_path : string) (s : State) : Z :=
  if negb (path_exists s config_path) then 1
  else exit_status (fst (run (ParityTester_init s))).

(** The executable [launch_game_headless] settles on: the Windows
    one when it exists, the Linux one otherwise. *)
Definition game_exe (s : State) : string :=
  if path_exists s (path_join (ParityConfig.game_dir config) "hl2.exe")
  then path_join (ParityConfig.game_dir config) "hl2.exe"
  else path_join (ParityConfig.game_dir config) "hl2.sh".

(** Whether [launch_game_headless] finds an executable to start. *)
Definition game_exe_found (s : State) : bool :=
  path_exists s (path_join (ParityConfig.game_dir config) "hl2.exe")
  || path_exists s (path_join (ParityConfig.game_dir config) "hl2.sh").

(** The state in which the loop of [run] starts when both directories
    could be made: banner printed, both directories there. *)
Definition loop_start (s : State) : State :=
  with_dirs (made (ParityConfig.golden_dir config)
             ∪ (made (ParityConfig.screenshot_dir config) ∪ dirs s))
    (with_console
       (console s ++ [Printed (MsgBanner (ParityConfig.map_name config)
                                 (length (ParityConfig.test_positions config)))])
       s).

(** [run] up to the end of its loop: the banner, the two directories
    and the loop over all positions. *)
Definition run_loop : M unit :=
  print (MsgBanner (ParityConfig.map_name config)
                   (length (ParityConfig.test_positions config))) ;;
  mkdir (ParityConfig.screenshot_dir config) ;;
  mkdir (ParityConfig.golden_dir config) ;;
  for_each (ParityConfig.test_positions config) test_position.

(** What [run] makes of the recorded results once the loop is over:
    the report when there is a result, then the conjunction of the
    [passed] flags. *)
Definition overall_result (rs : list ComparisonResult.t) : result bool :=
  match rs with
  | [] => Ok true
  | _ :: _ =>
      match render_report rs with
      | Raised e => Raised e
      | Ok _ => Ok (all_passed rs)
      end
  end.

End Harness.

(** ** Sample configurations and worlds *)

Module Scenario.

Definition position (name : string) (threshold : option float) : Position.t :=
  Position.mk name 0 0 0 0 0 threshold.

Definition config (positions : list Position.t) : ParityConfig.t :=
  ParityConfig.mk "pl_badwater" "game" "parity_screenshots" "parity_golden"
    positions [] 30.

(** A machine with the Linux launcher installed and the run
    configuration stored in [parity_config.json]. *)
Definition installed : gmap string file :=
  {[ "game/hl2.sh" := OtherFile; "parity_config.json" := TextFile "" ]}.

Definition start (fs : gmap string file) : State := mkState fs ∅ [] [] 0.

(** The same machine with a text file where the screenshots go, and
    with one where the references go. *)
Definition shots_taken : gmap string file :=
  <[ "parity_screenshots" := TextFile "notes" ]> installed.

Definition golden_taken : gmap string file :=
  <[ "parity_golden" := TextFile "notes" ]> installed.

(** An application that always exits in time and leaves [img] as the
    screenshot of the position. *)
Definition capturing (img : Image)
  : nat -> ParityConfig.t -> Position.t -> gmap string file -> proc_outcome :=
  fun _ cfg p fs => Exited (<[ test_path cfg p := ImageFile img ]> fs).

(** The same application, except that it hangs on the position called
    [slow]. *)
Definition hanging_on (slow : string) (img : Image)
  : nat -> ParityConfig.t -> Position.t -> gmap string file -> proc_outcome :=
  fun n cfg p fs =>
    if String.eqb (Position.name p) slow then TimedOut fs
    else capturing img n cfg p fs.

Definition one : ParityConfig.t := config [position "spawn" None].

Definition three : ParityConfig.t :=
  config [position "p1" None; position "p2" None; position "p3" None].

(** A world where the candidate of "spawn" is [test] and its reference
    is [golden]. *)
Definition both (test golden : Image) : State :=
  start (<[ test_path one (position "spawn" None) := ImageFile test ]>
         (<[ golden_path one (position "spawn" None) := ImageFile golden ]>
          installed)).

(** A world where "spawn" has a candidate and no reference. *)
Definition candidate_only (test : Image) : State :=
  start (<[ test_path one (position "spawn" None) := ImageFile test ]> installed).

End Scenario.

(** ** The similarity metric as the specification words it *)

Module Spec.

Definition mean_of (a : list Z) : float := Np.mean_uint8 a.

(** The covariance between two luminance fields: the mean, over the
    pixels, of the product of the two deviations from the means. *)
Definition covariance (a b : list Z) : float :=
  Np.mean (zip_with (fun u v => ((Py.float_of_Z u - mean_of a)
                                 * (Py.float_of_Z v - mean_of b))%float) a b).

(** [r] is [q] clamped into [[0.0, 1.0]]: a value of the interval, 0 for
    a negative [q], 1 for a [q] above 1, and [q] itself inside. *)
Definition clamped (q r : float) : Prop :=
  in_unit_interval r /\
  (PrimFloat.ltb q 0 = true -> r = 0%float) /\
  (PrimFloat.ltb 1 q = true -> r = 1%float) /\
  (PrimFloat.leb 0 q = true -> PrimFloat.leb q 1 = true ->
   PrimFloat.eqb r q = true).

(** Section 4.2: luminance, means, standard deviations, covariance; the
    zero-deviation rule; the clamped quotient otherwise. *)
Definition similarity (img1 img2 : Image) (r : float) : Prop :=
  let a := cells (luminance img1) in
  let b := cells (luminance img2) in
  let std1 := Np.std a in
  let std2 := Np.std b in
  if PrimFloat.eqb std1 0 || PrimFloat.eqb std2 0 then
    r = (if bool_decide (a = b) then 1%float else 0%float)
  else
    clamped (covariance a b / (std1 * std2))%float r.

End Spec.

(** ** Sample images *)

(** A flat-colour 1x2 greyscale image. *)
Definition flat_gray : Image := mkImage L 1 2 [[7]; [7]].

(** A 2x2 greyscale image whose luminance variance is exactly 2. *)
Definition checker : Image := mkImage L 2 2 [[0]; [4]; [2]; [2]].

(** Another 2x2 greyscale image. *)
Definition checker' : Image := mkImage L 2 2 [[1]; [3]; [2]; [2]].

(** Greyscale strips of two and of three pixels. *)
Definition strip2 : Image := mkImage L 1 2 [[0]; [1]].
Definition strip3 : Image := mkImage L 1 3 [[0]; [1]; [2]].

(** ** Loading the configuration *)

(** What [json.load] returns. *)
#[warnings="-register-all"]
Inductive json : Type :=
  | JNull
  | JBool (b : bool)
  | JInt (n : Z)
  | JFloat (x : float)
  | JString (text : string)
  | JArray (items : list json)
  | JObject (members : list (string * json)).

(** The two ways [load_config] fails on a JSON object: [data[key]] on a
    missing key, and [Path(value)] on a value that is no string. *)
Inductive load_error : Type :=
  | MissingKey (key : string)      (* KeyError *)
  | NotAPath (value : json).       (* TypeError *)

Module RawConfig.
(** A [ParityConfig] as [load_config] builds it: the dataclass checks no
    type, so four fields hold whatever the file had. *)
Record t : Type := mk {
  map_name : json;
  game_dir : string;
  screenshot_dir : string;
  golden_dir : string;
  test_positions : json;
  cvars : json;
  timeout : json;
}.
End RawConfig.

(** [data[key]]. *)
Definition subscript (data : gmap string json) (key : string)
  : load_error + json :=
  match data !! key with
  | Some v => inr v
  | None => inl (MissingKey key)
  end.

(** [data.get(key, fallback)]. *)
Definition dict_get (data : gmap string json) (key : string) (fallback : json)
  : json :=
  default fallback (data !! key).

(** [Path(value)], kept as the string it was built from. *)
Definition Path (value : json) : load_error + string :=
  match value with
  | JString text => inr text
  | _ => inl (NotAPath value)
  end.

(** [load_config] on the object [json.load] returned; the keyword
    arguments are evaluated in the order they are written. *)
Definition load_config (data : gmap string json) : load_error + RawConfig.t :=
  match subscript data "map_name" with
  | inl e => inl e
  | inr map_name =>
  match subscript data "game_dir" with
  | inl e => inl e
  | inr game_dir_value =>
  match Path game_dir_value with
  | inl e => inl e
  | inr game_dir =>
  match Path (dict_get data "screenshot_dir" (JString "parity_screenshots")) with
  | inl e => inl e
  | inr screenshot_dir =>
  match Path (dict_get data "golden_dir" (JString "parity_golden")) with
  | inl e => inl e
  | inr golden_dir =>
  match subscript data "test_positions" with
  | inl e => inl e
  | inr test_positions =>
      inr (RawConfig.mk map_name game_dir screenshot_dir golden_dir
             test_positions
             (dict_get data "cvars" (JObject []))
             (dict_get data "timeout" (JInt 30)))
  end end end end end end.

(** The keys [load_config] reads. *)
Definition config_keys : list string :=
  ["map_name"; "game_dir"; "screenshot_dir"; "golden_dir"; "test_positions";
   "cvars"; "timeout"].

(** A configuration file with the required keys only, and the same file
    with a [null] time-out. *)
Definition minimal_file : gmap string json :=
  {[ "map_name" := JString "pl_badwater";
     "game_dir" := JString "game";
     "test_positions" := JArray [] ]}.

Definition null_timeout_file : gmap string json :=
  <[ "timeout" := JNull ]> minimal_file.

(** ** The command line *)

Section CommandLine.

(** [str] of a coordinate, as an f-string prints it. *)
Variable str : float -> string.

Variable config : ParityConfig.t.

(** The argument list [launch_game_headless] builds for [game_exe]. *)
Definition build_args (game_exe : string) (position : Position.t) : list string :=
  [game_exe; "-game"; "mod_tf"; "+map"; ParityConfig.map_name config;
   "-windowed"; "-noborder"; "-w"; "1920"; "-h"; "1080"; "-dev"; "-console";
   "-nosteam"; "-insecure"]
  ++ flat_map (fun cvar => ["+"; fst cvar; snd cvar]) (ParityConfig.cvars config)
  ++ ["+setpos";
      str (Position.x position) +:+ " " +:+ str (Position.y position)
        +:+ " " +:+ str (Position.z position);
      "+setang";
      str (Position.pitch position) +:+ " " +:+ str (Position.yaw position)
        +:+ " 0"]
  ++ ["+wait"; "100"; "+screenshot"; screenshot_name config position; "+quit"].

End CommandLine.

(** * Golden content fetcher (scripts/fetch_golden_content.py) *)

Module Fetcher.

(** What a path of the disk holds. *)
Inductive node : Type :=
  | RegularFile (content : string)
  | Directory.

(** The values of [--game]. *)
Inductive game : Type := TF | HL2MP.

Record game_config : Type := mkGameConfig {
  name : string;
  appid : string;
  maps_dir : string;
  golden_maps : list string;
}.

(** [GAME_CONFIGS]. *)
Definition GAME_CONFIGS (g : game) : game_config :=
  match g with
  | TF =>
      mkGameConfig "Team Fortress 2" "440" "tf/maps"
        ["ctf_2fort.bsp"; "pl_badwater.bsp"; "cp_dustbowl.bsp";
         "koth_harvest_final.bsp"; "pl_upward.bsp"]
  | HL2MP =>
      mkGameConfig "Half-Life 2: Deathmatch" "320" "hl2mp/maps"
        ["dm_lockdown.bsp"; "dm_overwatch.bsp"; "dm_resistance.bsp";
         "dm_runoff.bsp"]
  end.

(** The directory names [find_game_directory] tries. *)
Definition game_dirs (g : game) : list string :=
  match g with
  | TF => ["Team Fortress 2"; "TeamFortress2"; "tf2"]
  | HL2MP => ["Half-Life 2 Deathmatch"; "hl2mp"]
  end.

(** [self.stats]. *)
Record stats : Type := mkStats {
  copied : nat;
  skipped : nat;
  failed : nat;
}.

Definition total (st : stats) : nat := copied st + skipped st + failed st.

(** The errors of the operating system the fetcher can meet. *)
Inductive oserror : Type :=
  | FileExistsError (path : string)
  | FileNotFoundError (path : string)
  | IsADirectoryError (path : string)
  | PermissionError (path : string)
  | SameFileError (path : string)
  | NotADirectoryError (path : string).

(** The console lines that tell what happened to a map. *)
Inductive line : Type :=
  | SteamFound (path : string)
  | SteamNotFound
  | GameFound (path : string)
  | GameNotFound
  | MapNotFound (map : string)
  | MapSkipped (map : string)
  | MapCopied (map : string)
  | MapFailed (map : string)
  | ManifestCreated (path : string)
  | Summary (c s f t : nat).

(** A [ContentFetcher] and the disk it works on. *)
Record state : Type := mkFetcher {
  disk : gmap string node;
  steam_path : option string;
  st : stats;
  console : list line;
}.

Section Fetch.

(** The Steam locations of the platform ([STEAM_PATHS_WINDOWS] without
    its empty entries, or [STEAM_PATHS_LINUX]). *)
Variable search_paths : list string.

(** Where the operating system refuses to write. *)
Variable denied : string -> bool.

(** [st_size] of a directory. *)
Variable dir_size : string -> nat.

(** [json.dump] of the manifest. *)
Variable dump_manifest : game -> option string -> stats -> string.

(** [self.game] and [self.output_dir]. *)
Variable the_game : game.
Variable output_dir : string.

(** [Path.exists]. *)
Definition path_exists (d : gmap string node) (p : string) : bool :=
  bool_decide (is_Some (d !! p)).

(** [Path.stat().st_size]. *)
Definition st_size (d : gmap string node) (p : string) : nat :=
  match d !! p with
  | Some (RegularFile content) => String.length content
  | _ => dir_size p
  end.

(** The parents [mkdir] makes on its way to [p], outermost first: a
    regular file among them stops it, and a missing one is made. *)
Fixpoint make_parents (d : gmap string node) (ps : list string) (p : string)
  : oserror + gmap string node :=
  match ps with
  | [] => inr d
  | a :: rest =>
      match d !! a with
      | Some (RegularFile _) => inl (NotADirectoryError p)
      | Some Directory => make_parents d rest p
      | None => if denied a then inl (PermissionError a)
                else make_parents (<[ a := Directory ]> d) rest p
      end
  end.

(** [Path.mkdir(parents=True, exist_ok=True)]. *)
Definition mkdir (d : gmap string node) (p : string)
  : oserror + gmap string node :=
  match d !! p with
  | Some (RegularFile _) => inl (FileExistsError p)
  | Some Directory => inr d
  | None =>
      match make_parents d (parents p) p with
      | inl e => inl e
      | inr d' => if denied p then inl (PermissionError p)
                  else inr (<[ p := Directory ]> d')
      end
  end.

(** [open(path, 'w').write(text)]. *)
Definition write_file (d : gmap string node) (p text : string)
  : oserror + gmap string node :=
  match d !! p with
  | Some Directory => inl (IsADirectoryError p)
  | _ => if denied p then inl (PermissionError p)
         else inr (<[ p := RegularFile text ]> d)
  end.

(** [shutil.copy2(src, dst)] for a source called [base]: a destination
    that is a directory receives the file under the source's name, and
    a file is not copied onto itself. *)
Definition copy2 (d : gmap string node) (src dst base : string)
  : oserror + gmap string node :=
  match d !! src with
  | Some (RegularFile content) =>
      let target :=
        match d !! dst with
        | Some Directory => path_join dst base
        | _ => dst
        end in
      if bool_decide (target = src) then inl (SameFileError src)
      else write_file d target content
  | Some Directory => inl (IsADirectoryError src)
  | None => inl (FileNotFoundError src)
  end.

(** [ContentFetcher.__init__]. *)
Definition init (d : gmap string node) : state :=
  mkFetcher d None (mkStats 0 0 0) [].

Definition say (l : line) (f : state) : state :=
  mkFetcher (disk f) (steam_path f) (st f) (console f ++ [l]).

(** The first search path that exists and has a [steamapps] entry. *)
Fixpoint first_steam (d : gmap string node) (paths : list string)
  : option string :=
  match paths with
  | [] => None
  | p :: rest =>
      if path_exists d p && path_exists d (path_join p "steamapps") then Some p
      else first_steam d rest
  end.

(** [ContentFetcher.find_steam_installation]. *)
Definition find_steam_installation (f : state) : bool * state :=
  match first_steam (disk f) search_paths with
  | Some p =>
      (true, say (SteamFound p)
               (mkFetcher (disk f) (Some p) (st f) (console f)))
  | None => (false, say SteamNotFound f)
  end.

(** The first directory name under [common_path] that exists and has the
    game's maps directory. *)
Fixpoint first_game (d : gmap string node) (common_path : string)
  (names : list string) : option string :=
  match names with
  | [] => None
  | n :: rest =>
      let game_path := path_join common_path n in
      if path_exists d game_path
         && path_exists d (path_join game_path (maps_dir (GAME_CONFIGS the_game)))
      then Some game_path
      else first_game d common_path rest
  end.

(** [ContentFetcher.find_game_directory]. *)
Definition find_game_directory (f : state) : option string * state :=
  match steam_path f with
  | None => (None, f)
  | Some steam =>
      match first_game (disk f) (path_join steam "steamapps/common")
              (game_dirs the_game) with
      | Some game_path => (Some game_path, say (GameFound game_path) f)
      | None => (None, say GameNotFound f)
      end
  end.

Definition bump_copied (s : stats) : stats :=
  mkStats (S (copied s)) (skipped s) (failed s).
Definition bump_skipped (s : stats) : stats :=
  mkStats (copied s) (S (skipped s)) (failed s).
Definition bump_failed (s : stats) : stats :=
  mkStats (copied s) (skipped s) (S (failed s)).

(** The body of the loop of [copy_golden_maps] for one map. *)
Definition copy_one (maps_src maps_dst : string) (f : state) (map : string)
  : state :=
  let src_file := path_join maps_src map in
  let dst_file := path_join maps_dst map in
  if negb (path_exists (disk f) src_file) then
    say (MapNotFound map)
      (mkFetcher (disk f) (steam_path f) (bump_failed (st f)) (console f))
  else if path_exists (disk f) dst_file
          && (st_size (disk f) src_file =? st_size (disk f) dst_file)%nat then
    say (MapSkipped map)
      (mkFetcher (disk f) (steam_path f) (bump_skipped (st f)) (console f))
  else
    match copy2 (disk f) src_file dst_file map with
    | inr d' =>
        say (MapCopied map)
          (mkFetcher d' (steam_path f) (bump_copied (st f)) (console f))
    | inl _ =>
        say (MapFailed map)
          (mkFetcher (disk f) (steam_path f) (bump_failed (st f)) (console f))
    end.

(** The loop of [copy_golden_maps]. *)
Definition copy_all (maps_src maps_dst : string) (f : state) : state :=
  fold_left (copy_one maps_src maps_dst) (golden_maps (GAME_CONFIGS the_game)) f.

(** [ContentFetcher.copy_golden_maps]. *)
Definition copy_golden_maps (game_path : string) (f : state)
  : oserror + state :=
  let maps_src := path_join game_path (maps_dir (GAME_CONFIGS the_game)) in
  let maps_dst := path_join output_dir "maps" in
  match mkdir (disk f) maps_dst with
  | inl e => inl e
  | inr d =>
      inr (copy_all maps_src maps_dst
             (mkFetcher d (steam_path f) (st f) (console f)))
  end.

(** [ContentFetcher.create_manifest]. *)
Definition create_manifest (f : state) : oserror + state :=
  let manifest_path := path_join output_dir "manifest.json" in
  match write_file (disk f) manifest_path
          (dump_manifest the_game (steam_path f) (st f)) with
  | inl e => inl e
  | inr d =>
      inr (say (ManifestCreated manifest_path)
             (mkFetcher d (steam_path f) (st f) (console f)))
  end.

(** [ContentFetcher.print_summary]. *)
Definition print_summary (f : state) : state :=
  say (Summary (copied (st f)) (skipped (st f)) (failed (st f)) (total (st f))) f.

(** [ContentFetcher.fetch]. *)
Definition fetch (f : state) : (oserror + bool) * state :=
  let (found, f1) := find_steam_installation f in
  if negb found then (inr false, f1)
  else
    match find_game_directory f1 with
    | (None, f2) => (inr false, f2)
    | (Some game_path, f2) =>
        match copy_golden_maps game_path f2 with
        | inl e => (inl e, f2)
        | inr f3 =>
            match create_manifest f3 with
            | inl e => (inl e, f3)
            | inr f4 =>
                let f5 := print_summary f4 in
                (inr (failed (st f5) =? 0)%nat, f5)
            end
        end
    end.

(** The exit status of [main]: [sys.exit(0 if success else 1)], or 1
    when an exception is left uncaught. *)
Definition main (d : gmap string node) : Z :=
  match fst (fetch (init d)) with
  | inr true => 0
  | _ => 1
  end.

(** The fetcher once Steam and the game are found. *)
Definition found (d : gmap string node) (steam game_path : string) : state :=
  say (GameFound game_path)
    (say (SteamFound steam) (mkFetcher d (Some steam) (mkStats 0 0 0) [])).

(** A map is settled when source and destination both exist and have
    the same size. *)
Definition settled (maps_src maps_dst : string) (d : gmap string node)
  (map : string) : Prop :=
  path_exists d (path_join maps_src map) = true
  /\ path_exists d (path_join maps_dst map) = true
  /\ st_size d (path_join maps_src map) = st_size d (path_join maps_dst map).

End Fetch.

(** A Linux machine with Team Fortress 2 installed, of which two golden
    maps are present. *)
Definition sample_disk : gmap string node :=
  {[ "/home/dev/.steam/steam" := Directory;
     "/home/dev/.steam/steam/steamapps" := Directory;
     "/home/dev/.steam/steam/steamapps/common/Team Fortress 2" := Directory;
     "/home/dev/.steam/steam/steamapps/common/Team Fortress 2/tf/maps" := Directory;
     "/home/dev/.steam/steam/steamapps/common/Team Fortress 2/tf/maps/ctf_2fort.bsp"
       := RegularFile "2fort";
     "/home/dev/.steam/steam/steamapps/common/Team Fortress 2/tf/maps/pl_upward.bsp"
       := RegularFile "upward" ]}.

Definition sample_paths : list string :=
  ["/home/dev/.steam/steam"; "/home/dev/.local/share/Steam"].

(** A Linux machine with Half-Life 2: Deathmatch installed in the second
    Steam location, all four golden maps present. *)
Definition hl2mp_disk : gmap string node :=
  {[ "/home/dev/.local/share/Steam" := Directory;
     "/home/dev/.local/share/Steam/steamapps" := Directory;
     "/home/dev/.local/share/Steam/steamapps/common/hl2mp" := Directory;
     "/home/dev/.local/share/Steam/steamapps/common/hl2mp/hl2mp/maps" := Directory;
     "/home/dev/.local/share/Steam/steamapps/common/hl2mp/hl2mp/maps/dm_lockdown.bsp"
       := RegularFile "lockdown";
     "/home/dev/.local/share/Steam/steamapps/common/hl2mp/hl2mp/maps/dm_overwatch.bsp"
       := RegularFile "overwatch";
     "/home/dev/.local/share/Steam/steamapps/common/hl2mp/hl2mp/maps/dm_resistance.bsp"
       := RegularFile "resistance";
     "/home/dev/.local/share/Steam/steamapps/common/hl2mp/hl2mp/maps/dm_runoff.bsp"
       := RegularFile "runoff" ]}.

Definition hl2mp_path : string :=
  "/home/dev/.local/share/Steam/steamapps/common/hl2mp".

(** The same machine with an output directory whose maps have the size
    of the installed ones and another content. *)
Definition stale_disk : gmap string node :=
  <[ "golden_content/maps" := Directory ]>
    (<[ "golden_content/maps/dm_lockdown.bsp" := RegularFile "LOCKDOWN" ]>
       (<[ "golden_content/maps/dm_overwatch.bsp" := RegularFile "OVERWATCH" ]>
          (<[ "golden_content/maps/dm_resistance.bsp" := RegularFile "RESISTANCE" ]>
             (<[ "golden_content/maps/dm_runoff.bsp" := RegularFile "RUNOFF" ]>
                hl2mp_disk)))).

(** The same machine with a directory where the manifest goes. *)
Definition blocked_disk : gmap string node :=
  <[ "golden_content/manifest.json" := Directory ]> hl2mp_disk.

(** The same machine with a regular file where the maps go. *)
Definition clogged_disk : gmap string node :=
  <[ "golden_content/maps" := RegularFile "" ]> hl2mp_disk.

(** A manifest writer that keeps the counters only. *)
Definition sample_dump (g : game) (steam : option string) (s : stats) : string :=
  pretty (copied s) +:+ " " +:+ pretty (skipped s)
  +:+ " " +:+ pretty (failed s).

(** A first run on [hl2mp_disk]. *)
Definition sample_run : state :=
  Eval vm_compute in
  match copy_golden_maps (fun _ => false) (fun _ => 4096%nat) HL2MP
          "golden_content" hl2mp_path (init hl2mp_disk) with
  | inr f => f
  | inl _ => init hl2mp_disk
  end.

End Fetcher.

(** ** How a step may move the state *)

(** A step that always returns and leaves [self.results] alone. *)
Definition quiet {A} (m : M A) : Prop :=
  forall s, exists a s', m s = (Ok a, s') /\ results s' = results s.

(** A step that only ever adds to the console and to [self.results]. *)
Definition monotone {A} (m : M A) : Prop :=
  forall s r s', m s = (r, s') ->
    console s `prefix_of` console s' /\ results s `prefix_of` results s'.

(** The console after a position whose process timed out. *)
Definition console_after_timeout (config : ParityConfig.t) (p : Position.t)
  (s : State) : list event :=
  console s ++ [Printed (MsgLaunching (Position.name p)); Printed MsgCommand;
                Printed (MsgTimedOut (ParityConfig.timeout config));
                ProcessKilled (Position.name p);
                Printed (MsgSkipping (Position.name p))].

(** A step that never removes a directory. *)
Definition keeps_dirs {A} (m : M A) : Prop :=
  forall s r s', m s = (r, s') -> dirs s ⊆ dirs s'.

(** * Properties *)

(** ** Summation never runs out of fuel *)

Section Summation.

Lemma pairwise_sum_unfold (fuel : nat) (xs : list float) :
  Np.pairwise_sum fuel xs
  = let n := length xs in
    if (n <? 8)%nat then Np.add_all PrimFloat.neg_zero xs
    else if (n <=? 128)%nat then Np.sum_block xs
    else
      match fuel with
      | O => PrimFloat.nan
      | S fuel' =>
          let n2 := (n / 2 - (n / 2) mod 8)%nat in
          (Np.pairwise_sum fuel' (take n2 xs)
           + Np.pairwise_sum fuel' (drop n2 xs))%float
      end.
Proof. destruct fuel; reflexivity. Qed.

(** The splitting of [pairwise_sum] never runs out of fuel when the fuel
    is at least the length of the input: any such fuel gives the same
    sum. *)
Lemma pairwise_sum_fuel (fuel fuel' : nat) (xs : list float) :
  (length xs <= fuel)%nat -> (length xs <= fuel')%nat ->
  Np.pairwise_sum fuel xs = Np.pairwise_sum fuel' xs.
Proof.
  revert fuel' xs. induction fuel as [|fuel IH]; intros fuel' xs Hfuel Hfuel';
    rewrite (pairwise_sum_unfold _ xs), (pairwise_sum_unfold fuel' xs); cbv zeta;
    destruct (Nat.ltb_spec (length xs) 8) as [|H8]; try reflexivity;
    destruct (Nat.leb_spec (length xs) 128) as [|H128]; try reflexivity;
    [lia|].
  destruct fuel' as [|fuel']; [lia|].
  set (n2 := (length xs / 2 - (length xs / 2) mod 8)%nat).
  assert (Hhalf : (length xs / 2 < length xs)%nat) by (apply Nat.div_lt; lia).
  assert (Hmod : ((length xs / 2) mod 8 < 8)%nat) by (apply Nat.mod_upper_bound; lia).
  assert (H64 : (64 <= length xs / 2)%nat) by (apply Nat.div_le_lower_bound; lia).
  assert (Hn2 : (0 < n2 < length xs)%nat) by (unfold n2; lia).
  f_equal; apply IH; rewrite ?length_take, ?length_drop; lia.
Qed.

(** Converting buffer by buffer never runs out of fuel either. *)
Lemma sum_buffered_fuel (fuel fuel' : nat) (acc : float) (xs : list float) :
  (length xs <= fuel)%nat -> (length xs <= fuel')%nat ->
  Np.sum_buffered fuel acc xs = Np.sum_buffered fuel' acc xs.
Proof.
  revert fuel' acc xs.
  induction fuel as [|fuel IH]; intros fuel' acc xs Hfuel Hfuel'.
  - destruct xs; [|simpl in Hfuel; lia]. now destruct fuel'.
  - destruct xs as [|x xs]; [now destruct fuel'|].
    destruct fuel' as [|fuel']; [simpl in Hfuel'; lia|].
    cbn [Np.sum_buffered]. apply IH; rewrite length_drop; unfold Np.bufsize;
      simpl length in *; lia.
Qed.

End Summation.

(** ** Comparisons of binary64 values against 0 and 1 *)

Section FloatOrder.

Lemma Prim2SF_0 : Prim2SF 0 = S754_zero false.
Proof. vm_compute. reflexivity. Qed.

Lemma Prim2SF_1 : Prim2SF 1 = S754_finite false 4503599627370496 (-52).
Proof. vm_compute. reflexivity. Qed.

Lemma ltb_leb (a b : float) : PrimFloat.ltb a b = true -> PrimFloat.leb a b = true.
Proof.
  rewrite FloatAxioms.ltb_spec, FloatAxioms.leb_spec. unfold SFltb, SFleb.
  destruct (SFcompare _ _) as [[]|]; easy.
Qed.

Lemma SFcompare_refl (f : spec_float) :
  f <> S754_nan -> SFcompare f f = Some Eq.
Proof.
  destruct f as [[]|[]| |[] m e]; simpl; intros Hn; try easy.
  - rewrite Z.compare_refl. fold (Pos.compare m m).
    now rewrite Pos.compare_refl.
  - rewrite Z.compare_refl. fold (Pos.compare m m).
    now rewrite Pos.compare_refl.
Qed.

Lemma SFcompare_eq_sym (f g : spec_float) :
  SFcompare f g = Some Eq -> SFcompare g f = Some Eq.
Proof.
  destruct f as [[]|[]| |[] m e], g as [[]|[]| |[] m' e']; simpl; try easy.
  - destruct (Z.compare e e') eqn:He; try easy.
    fold (Pos.compare m m'). destruct (Pos.compare m m') eqn:Hm; try easy.
    apply Z.compare_eq in He. apply Pos.compare_eq in Hm. subst.
    intros _. rewrite Z.compare_refl. fold (Pos.compare m' m').
    now rewrite Pos.compare_refl.
  - destruct (Z.compare e e') eqn:He; try easy.
    fold (Pos.compare m m'). destruct (Pos.compare m m') eqn:Hm; try easy.
    apply Z.compare_eq in He. apply Pos.compare_eq in Hm. subst.
    intros _. rewrite Z.compare_refl. fold (Pos.compare m' m').
    now rewrite Pos.compare_refl.
Qed.

Lemma SFcompare_lt_gt (f g : spec_float) :
  SFcompare f g = Some Lt -> SFcompare g f = Some Gt.
Proof.
  destruct f as [[]|[]| |[] m e], g as [[]|[]| |[] m' e']; simpl; try easy.
  - rewrite (Z.compare_antisym e e').
    destruct (Z.compare e e'); simpl; try easy.
    fold (Pos.compare m m') (Pos.compare m' m).
    rewrite (Pos.compare_antisym m m').
    destruct (Pos.compare m m'); simpl; easy.
  - rewrite (Z.compare_antisym e e').
    destruct (Z.compare e e'); simpl; try easy.
    fold (Pos.compare m m') (Pos.compare m' m).
    rewrite (Pos.compare_antisym m m').
    destruct (Pos.compare m m'); simpl; easy.
Qed.

(** Whatever is below zero is below every positive finite value. *)
Lemma SFcompare_neg_pos (f : spec_float) (m : positive) (e : Z) :
  SFcompare f (S754_zero false) = Some Lt ->
  SFcompare f (S754_finite false m e) = Some Lt.
Proof. destruct f as [[]|[]| |[] m' e']; simpl; easy. Qed.

Lemma ltb_compare (a b : float) :
  PrimFloat.ltb a b = true <-> SFcompare (Prim2SF a) (Prim2SF b) = Some Lt.
Proof.
  rewrite FloatAxioms.ltb_spec. unfold SFltb.
  destruct (SFcompare _ _) as [[]|]; easy.
Qed.

Lemma ltb_asym (a b : float) :
  PrimFloat.ltb a b = true -> PrimFloat.ltb b a = false.
Proof.
  rewrite ltb_compare. intros H%SFcompare_lt_gt.
  rewrite FloatAxioms.ltb_spec. unfold SFltb. now rewrite H.
Qed.

Lemma ltb_0_1 (q : float) :
  PrimFloat.ltb q 0 = true -> PrimFloat.ltb q 1 = true.
Proof.
  rewrite !ltb_compare, Prim2SF_0, Prim2SF_1. apply SFcompare_neg_pos.
Qed.

(** [max(0.0, min(1.0, q))] lies in [[0, 1]], whatever [q] is. *)
Lemma clamp_in_unit_interval (q : float) :
  in_unit_interval (Py.max 0 (Py.min 1 q)).
Proof.
  unfold in_unit_interval, Py.max, Py.min.
  destruct (PrimFloat.ltb q 1) eqn:H1.
  - destruct (PrimFloat.ltb 0 q) eqn:H0.
    + split; now apply ltb_leb.
    + split; vm_compute; reflexivity.
  - split; vm_compute; reflexivity.
Qed.

Lemma clamp_below (q : float) :
  PrimFloat.ltb q 0 = true -> Py.max 0 (Py.min 1 q) = 0%float.
Proof.
  intros Hq. unfold Py.max, Py.min.
  rewrite (ltb_0_1 q Hq), (ltb_asym q 0 Hq). reflexivity.
Qed.

Lemma clamp_above (q : float) :
  PrimFloat.ltb 1 q = true -> Py.max 0 (Py.min 1 q) = 1%float.
Proof.
  intros Hq. unfold Py.max, Py.min.
  rewrite (ltb_asym 1 q Hq). vm_compute. reflexivity.
Qed.

Lemma clamp_inside (q : float) :
  PrimFloat.leb 0 q = true -> PrimFloat.leb q 1 = true ->
  PrimFloat.eqb (Py.max 0 (Py.min 1 q)) q = true.
Proof.
  intros H0 H1. unfold Py.max, Py.min.
  rewrite FloatAxioms.leb_spec in H0, H1. unfold SFleb in H0, H1.
  destruct (PrimFloat.ltb q 1) eqn:Hlt.
  - destruct (PrimFloat.ltb 0 q) eqn:Hpos.
    + rewrite FloatAxioms.eqb_spec. unfold SFeqb.
      rewrite SFcompare_refl; [reflexivity|].
      intros Hn. rewrite Hn in H1. discriminate.
    + rewrite FloatAxioms.ltb_spec in Hpos. unfold SFltb in Hpos.
      rewrite FloatAxioms.eqb_spec. unfold SFeqb.
      destruct (SFcompare (Prim2SF 0) (Prim2SF q)) as [[]|]; easy.
  - rewrite FloatAxioms.ltb_spec in Hlt. unfold SFltb in Hlt.
    replace (PrimFloat.ltb 0 1) with true by (vm_compute; reflexivity).
    rewrite FloatAxioms.eqb_spec. unfold SFeqb.
    destruct (SFcompare (Prim2SF q) (Prim2SF 1)) as [[]|] eqn:Hc; try easy.
    now rewrite (SFcompare_eq_sym _ _ Hc).
Qed.

End FloatOrder.

(** ** Broadcasting two arrays of one shape *)

Section Broadcast.

Lemma broadcast_dim_same (n : nat) : Np.broadcast_dim n n = Some n.
Proof. unfold Np.broadcast_dim. now rewrite Nat.eqb_refl. Qed.

Lemma bcell_in_range (a : array2 float) (i j : nat) :
  (i < rows a)%nat -> (j < cols a)%nat ->
  Np.bcell a i j = nth (i * cols a + j) (cells a) PrimFloat.nan.
Proof.
  intros Hi Hj. unfold Np.bcell.
  destruct (Nat.eqb_spec (rows a) 1) as [Hr|_];
    destruct (Nat.eqb_spec (cols a) 1) as [Hc|_];
    f_equal; lia.
Qed.

Lemma map_seq_shift {C} (g : nat -> C) (k n : nat) :
  map (fun j => g (k + j)%nat) (seq 0 n) = map g (seq k n).
Proof.
  revert k g. induction n as [|n IH]; intros k g; [reflexivity|].
  simpl. rewrite Nat.add_0_r. f_equal.
  rewrite <- (seq_shift n 0), map_map.
  rewrite <- (IH (S k) g). apply map_ext. intros j. f_equal. lia.
Qed.

Lemma flat_map_rows {C} (g : nat -> C) (h w : nat) :
  flat_map (fun i => map (fun j => g (i * w + j)%nat) (seq 0 w)) (seq 0 h)
  = map g (seq 0 (h * w)).
Proof.
  induction h as [|h IH]; [reflexivity|].
  rewrite seq_S, flat_map_app, IH. simpl flat_map. rewrite app_nil_r.
  replace (S h * w)%nat with (h * w + w)%nat by lia.
  rewrite seq_app, map_app. f_equal. apply map_seq_shift.
Qed.

Lemma flat_map_ext_on {B C} (f g : B -> list C) (l : list B) :
  (forall i, In i l -> f i = g i) -> flat_map f l = flat_map g l.
Proof.
  induction l as [|i l IH]; intros H; [reflexivity|].
  simpl. rewrite (H i) by now left.
  f_equal. apply IH. intros k Hk. apply H. now right.
Qed.

Lemma map_nth_zip {C} (f : C -> C -> C) (d : C) (xs ys : list C) :
  length xs = length ys ->
  map (fun k => f (nth k xs d) (nth k ys d)) (seq 0 (length xs))
  = zip_with f xs ys.
Proof.
  revert ys. induction xs as [|u xs IH]; intros [|v ys] Hlen; try easy.
  simpl in *. f_equal.
  rewrite <- (seq_shift (length xs) 0), map_map. apply IH. lia.
Qed.

(** On two arrays of one shape the product is cell by cell. *)
Lemma multiply_same_shape (a b : array2 float) :
  wf_array2 a -> wf_array2 b -> same_shape a b ->
  Np.multiply a b
  = Ok (mkArray2 (rows a) (cols a) (zip_with PrimFloat.mul (cells a) (cells b))).
Proof.
  intros Ha Hb [Hr Hc]. unfold Np.multiply.
  rewrite <- Hr, <- Hc, !broadcast_dim_same. do 2 f_equal.
  rewrite <- (map_nth_zip PrimFloat.mul PrimFloat.nan)
    by (unfold wf_array2 in *; congruence).
  rewrite Ha. rewrite <- (flat_map_rows
    (fun k => (nth k (cells a) PrimFloat.nan * nth k (cells b) PrimFloat.nan)%float)).
  apply flat_map_ext_on. intros i Hi. apply map_ext_in. intros j Hj.
  apply in_seq in Hi, Hj.
  rewrite !bcell_in_range by lia. now rewrite <- Hc.
Qed.

(** Two arrays of one shape always broadcast together. *)
Lemma multiply_defined (a b : array2 float) :
  same_shape a b -> exists p, Np.multiply a b = Ok p.
Proof.
  intros [Hr Hc]. unfold Np.multiply.
  rewrite <- Hr, <- Hc, !broadcast_dim_same. eauto.
Qed.

End Broadcast.

(** ** The similarity metric *)

Section Similarity.

Lemma sub_scalar_wf (a : array2 Z) (m : float) :
  wf_array2 a -> wf_array2 (Np.sub_scalar a m).
Proof. unfold wf_array2. simpl. now rewrite length_map. Qed.

Lemma luminance_wf (img : Image) :
  length (im_data img) = (im_height img * im_width img)%nat ->
  wf_array2 (luminance img).
Proof. unfold wf_array2. simpl. now rewrite length_map. Qed.

(** The covariance the script computes through [Np.multiply] is the
    specification's covariance when the two arrays have one shape. *)
Lemma covariance_same_shape (a b : array2 Z) :
  wf_array2 a -> wf_array2 b -> same_shape a b ->
  exists prod,
    Np.multiply (Np.sub_scalar a (Np.mean_uint8 (cells a)))
                (Np.sub_scalar b (Np.mean_uint8 (cells b))) = Ok prod
    /\ Np.mean (cells prod) = Spec.covariance (cells a) (cells b).
Proof.
  intros Ha Hb Hs. eexists. split.
  - apply multiply_same_shape; auto using sub_scalar_wf.
  - simpl. unfold Spec.covariance, Spec.mean_of. f_equal.
    now rewrite zip_with_fmap_l, zip_with_fmap_r.
Qed.

(** Every value the metric returns lies in [[0.0, 1.0]]. *)
Lemma calculate_ssim_range (has_pil : bool) (img1 img2 : Image) (r : float) :
  calculate_ssim has_pil img1 img2 = Ok r -> in_unit_interval r.
Proof.
  unfold calculate_ssim. destruct has_pil; simpl.
  - destruct (Np.multiply _ _) as [prod|e]; [|discriminate].
    destruct (_ || _).
    + destruct (Np.array_equal _ _); intros [= <-]; split; reflexivity.
    + intros [= <-]. apply clamp_in_unit_interval.
  - intros [= <-]. split; reflexivity.
Qed.

Lemma clamp_is_clamped (q : float) : Spec.clamped q (Py.max 0 (Py.min 1 q)).
Proof.
  split; [apply clamp_in_unit_interval|].
  split; [apply clamp_below|]. split; [apply clamp_above|apply clamp_inside].
Qed.

End Similarity.

(** C1 (amended). With the image libraries available, for every pair of
    images whose luminance arrays have the same height and width, the
    similarity metric returns a value, that value is the one the
    specification's algorithm describes (zero-deviation rule, clamped
    quotient of covariance by the product of the deviations otherwise),
    and it lies in [[0.0, 1.0]]; without the libraries the metric is the
    constant 0.0. *)
Theorem calculate_ssim_refines_spec (img1 img2 : Image) :
  length (im_data img1) = (im_height img1 * im_width img1)%nat ->
  length (im_data img2) = (im_height img2 * im_width img2)%nat ->
  im_height img1 = im_height img2 ->
  im_width img1 = im_width img2 ->
  (exists r, calculate_ssim true img1 img2 = Ok r
             /\ Spec.similarity img1 img2 r
             /\ in_unit_interval r)
  /\ calculate_ssim false img1 img2 = Ok 0%float.
Proof.
  intros H1 H2 Hh Hw. split; [|reflexivity].
  destruct (covariance_same_shape (luminance img1) (luminance img2))
    as (prod & Hprod & Hcov); auto using luminance_wf.
  { now split. }
  assert (Hr : exists r, calculate_ssim true img1 img2 = Ok r
                         /\ Spec.similarity img1 img2 r).
  { unfold calculate_ssim, Spec.similarity. cbn [negb].
    cbv zeta. rewrite Hprod, Hcov.
    destruct (_ || _).
    - eexists. split; [reflexivity|].
      unfold Np.array_equal. cbn [luminance rows cols cells].
      rewrite Hh, Hw, !Nat.eqb_refl. reflexivity.
    - eexists. split; [reflexivity|]. apply clamp_is_clamped. }
  destruct Hr as (r & Hr & Hspec). exists r. repeat split; auto.
  all: now apply (calculate_ssim_range true img1 img2).
Qed.

(** The amended C1 at two 2x2 greyscale images. *)
Lemma calculate_ssim_refines_spec_witness :
  (exists r, calculate_ssim true checker checker' = Ok r
             /\ Spec.similarity checker checker' r
             /\ in_unit_interval r)
  /\ calculate_ssim false checker checker' = Ok 0%float.
Proof. apply (calculate_ssim_refines_spec checker checker'); reflexivity. Defined.

(** C1 as stated fails when the libraries are missing: two identical
    flat images get 0.0 where the specification's algorithm says 1.0. *)
Lemma calculate_ssim_spec_counterexample :
  ~ (exists r, calculate_ssim false flat_gray flat_gray = Ok r
               /\ Spec.similarity flat_gray flat_gray r).
Proof.
  intros (r & Hr & Hspec). vm_compute in Hr. injection Hr as <-.
  vm_compute in Hspec.
  apply (f_equal (fun v => PrimFloat.eqb v 0)) in Hspec.
  vm_compute in Hspec. discriminate.
Qed.

(** ** How the harness moves the state *)

Create HintDb steps discriminated.

Section Steps.

Context {A B : Type}.

Lemma quiet_ret (a : A) : quiet (ret a).
Proof. intros s. now exists a, s. Qed.

Lemma quiet_bind (m : M A) (k : A -> M B) :
  quiet m -> (forall a, quiet (k a)) -> quiet (bind m k).
Proof.
  intros Hm Hk s. destruct (Hm s) as (a & s1 & E1 & R1).
  destruct (Hk a s1) as (b & s2 & E2 & R2).
  exists b, s2. unfold bind. rewrite E1, E2. split; congruence.
Qed.

Lemma monotone_ret (a : A) : monotone (ret a).
Proof. intros s r s' [= <- <-]. split; reflexivity. Qed.

Lemma monotone_raise (e : exn) : monotone (@raise A e).
Proof. intros s r s' [= <- <-]. split; reflexivity. Qed.

Lemma monotone_lift (r : result A) : monotone (lift r).
Proof. intros s r' s' [= <- <-]. split; reflexivity. Qed.

Lemma monotone_bind (m : M A) (k : A -> M B) :
  monotone m -> (forall a, monotone (k a)) -> monotone (bind m k).
Proof.
  intros Hm Hk s r s'. unfold bind.
  destruct (m s) as [[a|e] s1] eqn:E1; intros E2.
  - destruct (Hm _ _ _ E1), (Hk _ _ _ _ E2). split; etrans; eauto.
  - injection E2 as <- <-. apply (Hm _ _ _ E1).
Qed.

Lemma monotone_try_except (m : M A) (h : exn -> M A) :
  monotone m -> (forall e, monotone (h e)) -> monotone (try_except m h).
Proof.
  intros Hm Hh s r s'. unfold try_except.
  destruct (m s) as [[a|e] s1] eqn:E1; intros E2.
  - injection E2 as <- <-. apply (Hm _ _ _ E1).
  - destruct (Hm _ _ _ E1), (Hh _ _ _ _ E2). split; etrans; eauto.
Qed.

End Steps.

Section PrimitiveSteps.

Lemma quiet_emit (e : event) : quiet (emit e).
Proof. intros s. now eexists _, _. Qed.

Lemma quiet_print (m : message) : quiet (print m).
Proof. apply quiet_emit. Qed.

Lemma quiet_get : quiet get.
Proof. intros s. now eexists _, _. Qed.

Lemma monotone_emit (e : event) : monotone (emit e).
Proof.
  intros s r s' [= <- <-]. split; [now apply prefix_app_r|reflexivity].
Qed.

Lemma monotone_print (m : message) : monotone (print m).
Proof. apply monotone_emit. Qed.

Lemma monotone_get : monotone get.
Proof. intros s r s' [= <- <-]. split; reflexivity. Qed.

Lemma monotone_mkdir (p : string) : monotone (mkdir p).
Proof.
  intros s r s'. unfold mkdir.
  destruct (mkdir_error s p); intros [= <- <-]; split; reflexivity.
Qed.

Lemma monotone_Image_open (p : string) : monotone (Image_open p).
Proof.
  intros s r s'. unfold Image_open.
  destruct (files s !! p) as [[]|]; intros [= <- <-]; split; reflexivity.
Qed.

Lemma monotone_Image_save (img : Image) (p : string) :
  monotone (Image_save img p).
Proof. intros s r s' [= <- <-]. split; reflexivity. Qed.

Lemma monotone_write_text (p text : string) : monotone (write_text p text).
Proof. intros s r s' [= <- <-]. split; reflexivity. Qed.

End PrimitiveSteps.

#[global] Hint Resolve quiet_ret quiet_emit quiet_print quiet_get : steps.
#[global] Hint Resolve monotone_ret monotone_raise monotone_lift monotone_emit
  monotone_print monotone_get monotone_mkdir monotone_Image_open
  monotone_Image_save monotone_write_text : steps.

(** Splits a step along its binds, conditionals and matches. *)
Ltac step_cases :=
  repeat first
    [ apply quiet_bind; [|intros ?]
    | apply monotone_bind; [|intros ?]
    | apply monotone_try_except; [|intros ?]
    | match goal with
      | |- quiet (if ?b then _ else _) => destruct b
      | |- monotone (if ?b then _ else _) => destruct b
      | |- quiet (match ?x with _ => _ end) => destruct x
      | |- monotone (match ?x with _ => _ end) => destruct x
      | |- quiet (let _ := _ in _) => cbv zeta
      | |- monotone (let _ := _ in _) => cbv zeta
      end
    | solve [auto with steps] ].

Section HarnessSteps.

Variable HAS_PIL : bool.
Variable game :
  nat -> ParityConfig.t -> Position.t -> gmap string file -> proc_outcome.
Variable format_float : nat -> float -> string.
Variable config : ParityConfig.t.

Lemma quiet_spawn_and_wait (p : Position.t) :
  quiet (spawn_and_wait game config p).
Proof. intros s. now eexists _, _. Qed.

Lemma monotone_spawn_and_wait (p : Position.t) :
  monotone (spawn_and_wait game config p).
Proof. intros s r s' [= <- <-]. split; reflexivity. Qed.

Lemma quiet_set_files (fs : gmap string file) : quiet (set_files fs).
Proof. intros s. now eexists _, _. Qed.

Lemma monotone_set_files (fs : gmap string file) : monotone (set_files fs).
Proof. intros s r s' [= <- <-]. split; reflexivity. Qed.

Lemma monotone_append_result (r : ComparisonResult.t) :
  monotone (append_result r).
Proof.
  intros s r' s' [= <- <-]. split; [reflexivity|now apply prefix_app_r].
Qed.

Hint Resolve quiet_spawn_and_wait monotone_spawn_and_wait quiet_set_files
  monotone_set_files monotone_append_result : steps.

(** Launching never raises and records nothing. *)
Lemma quiet_launch_game_headless (p : Position.t) :
  quiet (launch_game_headless game config p).
Proof. unfold launch_game_headless. step_cases. Qed.

Lemma monotone_launch_game_headless (p : Position.t) :
  monotone (launch_game_headless game config p).
Proof. unfold launch_game_headless. step_cases. Qed.

Lemma monotone_calculate_mse (img1 img2 : Image) :
  monotone (calculate_mse HAS_PIL img1 img2).
Proof. unfold calculate_mse. step_cases. Qed.

Lemma monotone_judge (p : Position.t) (ssim mse : float) :
  monotone (judge config p ssim mse).
Proof. unfold judge. step_cases. Qed.

Hint Resolve monotone_calculate_mse monotone_judge : steps.

Lemma monotone_compare_screenshots (p : Position.t) :
  monotone (compare_screenshots HAS_PIL config p).
Proof. unfold compare_screenshots. step_cases. Qed.

Hint Resolve monotone_launch_game_headless monotone_compare_screenshots : steps.

Lemma monotone_test_position (p : Position.t) :
  monotone (test_position HAS_PIL game config p).
Proof. unfold test_position. step_cases. Qed.

Lemma monotone_for_each {X} (body : X -> M unit) (xs : list X) :
  (forall a, monotone (body a)) -> monotone (for_each xs body).
Proof.
  intros Hb. induction xs as [|a xs IH]; simpl; step_cases.
Qed.

Lemma quiet_for_each {X} (body : X -> M unit) (xs : list X) :
  (forall a, quiet (body a)) -> quiet (for_each xs body).
Proof.
  intros Hb. induction xs as [|a xs IH]; simpl; step_cases.
Qed.

End HarnessSteps.

(** ** The comparator, path by path *)

(** Runs the binds of a step on a given state. *)
Ltac exec :=
  unfold bind, ret, raise, lift, try_except, get, print, emit, mkdir,
    Image_save, write_text, set_files, spawn_and_wait, append_result;
  cbn [fst snd console results files dirs launches
       with_console with_files with_dirs with_results with_launches].

Section Comparator.

Variable HAS_PIL : bool.
Variable config : ParityConfig.t.

(** The outcome of the bootstrap path. *)
Lemma compare_outcome (p : Position.t) (s s' : State) (r : ComparisonResult.t) :
  compare_screenshots HAS_PIL config p s = (Ok (Some r), s') ->
  if path_exists s (golden_path config p) then
    ComparisonResult.threshold r = threshold_of p
    /\ ComparisonResult.passed r
       = Py.ge (ComparisonResult.ssim r) (ComparisonResult.threshold r)
  else
    r = ComparisonResult.mk (ParityConfig.map_name config) (Position.name p)
          1 0 true 0.95.
Proof.
  unfold compare_screenshots, judge, calculate_mse, Image_open.
  destruct HAS_PIL; cbn [negb]; [|discriminate].
  exec. unfold path_exists at 1 2. cbn [files dirs with_console].
  fold (path_exists s (test_path config p)).
  fold (path_exists s (golden_path config p)).
  intros Hrun.
  destruct (path_exists s (test_path config p)); cbn [negb] in Hrun;
    [|discriminate].
  destruct (path_exists s (golden_path config p)); cbn [negb] in Hrun.
  - revert Hrun. exec. repeat case_match; intros Hrun; simplify_eq; try done.
    all: revert Hrun; exec; intros Hrun; simplify_eq; done.
  - revert Hrun. exec. repeat case_match; intros Hrun; simplify_eq; done.
Qed.

End Comparator.

(** ** Making a directory *)

Section Mkdir.

Lemma mkdir_error_with_console (c : list event) (s : State) (p : string) :
  mkdir_error (with_console c s) p = mkdir_error s p.
Proof. reflexivity. Qed.

Lemma mkdir_error_with_results (rs : list ComparisonResult.t) (s : State)
  (p : string) :
  mkdir_error (with_results rs s) p = mkdir_error s p.
Proof. reflexivity. Qed.

(** A directory that could be made can still be made once other
    directories have been made. *)
Lemma mkdir_error_more_dirs (s s' : State) (p : string) :
  files s' = files s -> dirs s ⊆ dirs s' ->
  mkdir_error s p = None -> mkdir_error s' p = None.
Proof.
  intros Hfiles Hdirs. unfold mkdir_error, is_file. rewrite Hfiles.
  destruct (bool_decide (p ∈ dirs s')) eqn:Hnew; [reflexivity|].
  apply bool_decide_eq_false in Hnew.
  rewrite bool_decide_eq_false_2 by set_solver. easy.
Qed.

(** The two outcomes of [mkdir]. *)
Lemma mkdir_outcomes (p : string) (s : State) :
  (mkdir_error s p = None
   /\ mkdir p s = (Ok tt, with_dirs (made p ∪ dirs s) s))
  \/ (exists e, mkdir_error s p = Some e /\ mkdir p s = (Raised e, s)).
Proof. unfold mkdir. destruct (mkdir_error s p); eauto. Qed.

Lemma elem_of_made (p : string) : p ∈ made p.
Proof. unfold made. set_solver. Qed.

End Mkdir.

(** ** The orchestrator after its loop *)

Section Orchestrator.

Variable HAS_PIL : bool.
Variable game :
  nat -> ParityConfig.t -> Position.t -> gmap string file -> proc_outcome.
Variable format_float : nat -> float -> string.
Variable config : ParityConfig.t.

(** When both directories can be made the loop starts from
    [loop_start]. *)
Lemma run_loop_from_start (s : State) :
  mkdir_error s (ParityConfig.screenshot_dir config) = None ->
  mkdir_error s (ParityConfig.golden_dir config) = None ->
  run_loop HAS_PIL game config s
  = for_each (ParityConfig.test_positions config)
      (test_position HAS_PIL game config) (loop_start config s).
Proof.
  intros Hshots Hgolden. unfold run_loop, loop_start. exec.
  rewrite mkdir_error_with_console, Hshots. exec.
  rewrite (mkdir_error_more_dirs s) by (try reflexivity; try assumption; cbn; set_solver).
  reflexivity.
Qed.

(** When the first directory cannot be made nothing else happens. *)
Lemma run_loop_stops (s : State) (e : exn) :
  mkdir_error s (ParityConfig.screenshot_dir config) = Some e ->
  run_loop HAS_PIL game config s
  = (Raised e,
     with_console
       (console s ++ [Printed (MsgBanner (ParityConfig.map_name config)
                                 (length (ParityConfig.test_positions config)))])
       s).
Proof.
  intros Hshots. unfold run_loop. exec.
  now rewrite mkdir_error_with_console, Hshots.
Qed.

(** The value of [run] is decided by the loop and, once the loop is
    over, by the recorded results alone. *)
Lemma run_result (s : State) :
  fst (run HAS_PIL game format_float config s)
  = match run_loop HAS_PIL game config s with
    | (Raised e, _) => Raised e
    | (Ok _, s1) => overall_result format_float config (results s1)
    end.
Proof.
  unfold run, run_loop, generate_report, print_summary, overall_result. exec.
  destruct (mkdir_error _ _); [reflexivity|]. exec.
  destruct (mkdir_error _ _); [reflexivity|]. exec.
  destruct (for_each _ _ _) as [[[]|e] s1]; [|reflexivity].
  destruct (results s1) as [|r rs] eqn:Hrs; exec.
  - now rewrite Hrs.
  - rewrite ?Hrs. exec. rewrite ?Hrs.
    destruct (render_report _ _ (r :: rs)); exec; rewrite ?Hrs; reflexivity.
Qed.

(** Nothing after the loop touches [self.results], the directories or
    erases the console; when the loop raises, [run] stops there. *)
Lemma run_state (s : State) :
  results (snd (run HAS_PIL game format_float config s))
  = results (snd (run_loop HAS_PIL game config s))
  /\ console (snd (run_loop HAS_PIL game config s))
     `prefix_of` console (snd (run HAS_PIL game format_float config s)).
Proof.
  unfold run, run_loop, generate_report, print_summary. exec.
  destruct (mkdir_error _ _); [now split|]. exec.
  destruct (mkdir_error _ _); [now split|]. exec.
  destruct (for_each _ _ _) as [[[]|e] s1]; [|now split].
  destruct (results s1) as [|r rs] eqn:Hrs; exec.
  - split; [reflexivity|now apply prefix_app_r].
  - rewrite ?Hrs. exec. rewrite ?Hrs.
    destruct (render_report _ _ (r :: rs)); exec; [|now split].
    split; [congruence|]. now do 2 apply prefix_app_r.
Qed.

Lemma run_dirs (s : State) :
  dirs (snd (run HAS_PIL game format_float config s))
  = dirs (snd (run_loop HAS_PIL game config s)).
Proof.
  unfold run, run_loop, generate_report, print_summary. exec.
  destruct (mkdir_error _ _); [reflexivity|]. exec.
  destruct (mkdir_error _ _); [reflexivity|]. exec.
  destruct (for_each _ _ _) as [[[]|e] s1]; [|reflexivity].
  destruct (results s1) as [|r rs] eqn:Hrs; exec.
  - reflexivity.
  - rewrite ?Hrs. exec. rewrite ?Hrs.
    destruct (render_report _ _ (r :: rs)); exec; reflexivity.
Qed.

(** The report cannot be rendered: the first brace of its style sheet
    is read as a replacement field. *)
Lemma render_report_raises (rs : list ComparisonResult.t) :
  render_report format_float config rs = Raised (KeyError " font-family").
Proof. reflexivity. Qed.

End Orchestrator.

(** ** An image against itself *)

Section SelfComparison.

Variable A : Image.

Lemma array_equal_refl (a : array2 Z) : Np.array_equal a a = true.
Proof.
  unfold Np.array_equal. rewrite !Nat.eqb_refl. now rewrite bool_decide_eq_true_2.
Qed.


End SelfComparison.

(** C8 (amended). With the image libraries available, for every valid
    image [A] (so for every valid single-channel one) the similarity of
    [A] with itself is returned and lies in [[0.0, 1.0]]; it is exactly
    1.0 when the luminance deviation is computed as zero (a flat-colour
    image), and otherwise it is the binary64 quotient of the covariance
    of [A] with itself (the mean of the squared deviations from the mean)
    by the squared deviation, clamped into [[0.0, 1.0]], which rounding
    can leave just below 1.0. Without the libraries the similarity of [A]
    with itself is 0.0. *)
Theorem self_similarity (A : Image) :
  valid_image A ->
  let a := cells (luminance A) in
  let sd := Np.std a in
  (exists v, calculate_ssim true A A = Ok v /\ in_unit_interval v)
  /\ (PrimFloat.eqb sd 0 = true -> calculate_ssim true A A = Ok 1%float)
  /\ (PrimFloat.eqb sd 0 = false ->
      calculate_ssim true A A
      = Ok (Py.max 0 (Py.min 1 (Spec.covariance a a / (sd * sd)))))
  /\ calculate_ssim false A A = Ok 0%float.
Proof.
  intros [Hlen _] a sd.
  destruct (covariance_same_shape (luminance A) (luminance A))
    as (prod & Hprod & Hcov); [now apply luminance_wf..|now split|].
  assert (Hself : calculate_ssim true A A
                  = Ok (if PrimFloat.eqb sd 0 then 1%float
                        else Py.max 0 (Py.min 1 (Spec.covariance a a / (sd * sd))))).
  { unfold calculate_ssim. cbn [negb]. cbv zeta. rewrite Hprod, Hcov.
    fold a sd. destruct (PrimFloat.eqb sd 0); cbn [orb]; [|reflexivity].
    now rewrite array_equal_refl. }
  split; [|split; [|split]].
  - eexists. split; [exact Hself|].
    now apply (calculate_ssim_range true A A).
  - intros Hflat. now rewrite Hself, Hflat.
  - intros Hvar. now rewrite Hself, Hvar.
  - reflexivity.
Qed.

(** The amended C8 at a flat image and at a varied one. *)
Lemma self_similarity_witness :
  calculate_ssim true flat_gray flat_gray = Ok 1%float
  /\ calculate_ssim true checker checker
     = Ok (Py.max 0 (Py.min 1
             (Spec.covariance (cells (luminance checker)) (cells (luminance checker))
              / (Np.std (cells (luminance checker))
                 * Np.std (cells (luminance checker)))))).
Proof.
  split.
  - refine (proj1 (proj2 (self_similarity flat_gray _)) _).
    + split; [reflexivity|]. repeat constructor; simpl; lia.
    + vm_compute. reflexivity.
  - refine (proj1 (proj2 (proj2 (self_similarity checker _))) _).
    + split; [reflexivity|]. repeat constructor; simpl; lia.
    + vm_compute. reflexivity.
Defined.

(** C8 as stated fails: a valid 2x2 single-channel image whose similarity
    with itself is 0.9999999999999998. *)
Lemma self_similarity_counterexample :
  valid_image checker /\ im_mode checker = L
  /\ calculate_ssim true checker checker = Ok 0.99999999999999978%float
  /\ calculate_ssim true checker checker <> Ok 1%float.
Proof.
  split; [|split; [reflexivity|split]].
  - split; [reflexivity|]. repeat constructor; simpl; lia.
  - vm_compute. reflexivity.
  - intros H.
    apply (f_equal (fun r => match r with
                             | Ok v => PrimFloat.eqb v 1
                             | Raised _ => true
                             end)) in H.
    vm_compute in H. discriminate.
Qed.

(** ** Bootstrapping a reference *)

Lemma path_exists_with_console (c : list event) (s : State) (p : string) :
  path_exists (with_console c s) p = path_exists s p.
Proof. reflexivity. Qed.

Lemma path_exists_file (s : State) (p : string) (f : file) :
  files s !! p = Some f -> path_exists s p = true.
Proof. unfold path_exists. now intros ->. Qed.





(** ** Images of different shapes *)

(** Two images of one height and width always get a similarity, whatever
    their modes. *)
Lemma calculate_ssim_defined (a b : Image) :
  im_height a = im_height b -> im_width a = im_width b ->
  exists v, calculate_ssim true a b = Ok v.
Proof.
  intros Hh Hw. unfold calculate_ssim. cbn [negb]. cbv zeta.
  destruct (multiply_defined
              (Np.sub_scalar (luminance a)
                 (Np.mean_uint8 (cells (luminance a))))
              (Np.sub_scalar (luminance b)
                 (Np.mean_uint8 (cells (luminance b)))))
    as [prod Hprod]; [now split|].
  rewrite Hprod. destruct (_ || _); eauto.
Qed.

(** When only the band count differs (say a greyscale candidate and an RGB
    reference of the same size) the comparison does complete: the error
    metric is the infinity sentinel, the warning is printed, and the
    verdict is the similarity against the threshold. *)
Lemma band_mismatch_is_not_fatal
  (config : ParityConfig.t) (p : Position.t) (s : State) (a b : Image) :
  files s !! test_path config p = Some (ImageFile a) ->
  files s !! golden_path config p = Some (ImageFile b) ->
  im_height a = im_height b -> im_width a = im_width b ->
  np_shape a <> np_shape b ->
  exists v,
    calculate_ssim true a b = Ok v
    /\ fst (compare_screenshots true config p s)
       = Ok (Some (ComparisonResult.mk (ParityConfig.map_name config)
                     (Position.name p) v PrimFloat.infinity
                     (Py.ge v (threshold_of p)) (threshold_of p)))
    /\ Printed MsgDimensionsDontMatch
       ∈ console (snd (compare_screenshots true config p s)).
Proof.
  intros Ha Hb Hh Hw Hshape.
  destruct (calculate_ssim_defined a b Hh Hw) as [v Hv].
  exists v. split; [exact Hv|].
  unfold compare_screenshots, Image_open, judge, calculate_mse. cbn [negb]. exec.
  rewrite !path_exists_with_console.
  rewrite (path_exists_file _ _ _ Ha), (path_exists_file _ _ _ Hb).
  cbn [negb]. exec. rewrite Ha. exec. rewrite Hb. exec. rewrite Hv.
  rewrite bool_decide_eq_false_2 by exact Hshape. cbn [negb]. exec.
  split; [reflexivity|set_solver].
Qed.

(** C3 (the code departs from it). A captured 1x2 greyscale candidate
    compared with a 1x3 greyscale reference: the two shapes differ, the
    similarity metric raises [ValueError] while multiplying the two
    deviation arrays, so the comparison returns no outcome, the
    dimension warning of the error metric is never printed, [run] ends in
    the exception and the process exits with status 1. *)
Theorem shape_mismatch_aborts (format_float : nat -> float -> string) :
  let p := Scenario.position "spawn" None in
  let s := Scenario.both strip2 strip3 in
  let out := compare_screenshots true Scenario.one p s in
  let game := Scenario.capturing strip2 in
  np_shape strip2 <> np_shape strip3
  /\ fst out = Raised (ValueError "operands could not be broadcast together")
  /\ console (snd out) = [Printed (MsgComparing "spawn")]
  /\ fst (run true game format_float Scenario.one (ParityTester_init s))
     = Raised (ValueError "operands could not be broadcast together")
  /\ main true game format_float Scenario.one "parity_config.json" s = 1.
Proof. vm_compute. repeat split. discriminate. Qed.

(** ** The verdict and the recorded threshold *)

(** C6. Whenever the comparator returns an outcome for a position whose
    reference exists, [passed] is [similarity >= thresholdUsed] and
    [thresholdUsed] is the position's [ssim_threshold], or 0.95 when it
    has none; with a threshold of 0.90 and a similarity of 0.89 the
    verdict is a failure recorded with threshold 0.90, not 0.95. *)
Theorem passed_is_similarity_ge_threshold :
  (forall HAS_PIL config p s s' r,
     path_exists s (golden_path config p) = true ->
     compare_screenshots HAS_PIL config p s = (Ok (Some r), s') ->
     ComparisonResult.passed r
     = Py.ge (ComparisonResult.ssim r) (ComparisonResult.threshold r)
     /\ ComparisonResult.threshold r
        = default 0.95%float (Position.ssim_threshold p))
  /\ (forall config name x y z pitch yaw mse s,
        fst (judge config
               (Position.mk name x y z pitch yaw (Some 0.90%float))
               0.89 mse s)
        = Ok (Some (ComparisonResult.mk (ParityConfig.map_name config) name
                      0.89 mse false 0.90)))
  /\ PrimFloat.eqb 0.90 0.95 = false.
Proof.
  split; [|split].
  - intros HAS_PIL config p s s' r Hgolden Hrun.
    pose proof (compare_outcome HAS_PIL config p s s' r Hrun) as H.
    rewrite Hgolden in H. destruct H as [Hthr Hpass]. now split.
  - intros. vm_compute. reflexivity.
  - vm_compute. reflexivity.
Qed.

(** C6 at the 2x2 candidate compared with an identical reference. *)
Lemma passed_is_similarity_ge_threshold_witness :
  let r := ComparisonResult.mk "pl_badwater" "spawn" 0.99999999999999978 0
             true 0.95 in
  ComparisonResult.passed r
  = Py.ge (ComparisonResult.ssim r) (ComparisonResult.threshold r)
  /\ ComparisonResult.threshold r
     = default 0.95%float (Position.ssim_threshold (Scenario.position "spawn" None)).
Proof.
  apply (proj1 passed_is_similarity_ge_threshold true Scenario.one
           (Scenario.position "spawn" None) (Scenario.both checker checker)
           (snd (compare_screenshots true Scenario.one
                   (Scenario.position "spawn" None)
                   (Scenario.both checker checker))));
    vm_compute; reflexivity.
Defined.

(** C7 (amended). Every outcome the comparator returns carries the
    position's own threshold ([ssim_threshold], or 0.95 without one) when
    the reference existed, and the constant 0.95 when the reference was
    created from the candidate, whatever the position configures. *)
Theorem threshold_recorded
  (HAS_PIL : bool) (config : ParityConfig.t) (p : Position.t)
  (s s' : State) (r : ComparisonResult.t) :
  compare_screenshots HAS_PIL config p s = (Ok (Some r), s') ->
  ComparisonResult.threshold r
  = if path_exists s (golden_path config p) then threshold_of p
    else 0.95%float.
Proof.
  intros Hrun. pose proof (compare_outcome HAS_PIL config p s s' r Hrun) as H.
  destruct (path_exists s (golden_path config p)).
  - apply H.
  - now rewrite H.
Qed.

(** The amended C7 on the bootstrap path of a position configured with
    0.90. *)
Lemma threshold_recorded_witness :
  ComparisonResult.threshold
    (ComparisonResult.mk "pl_badwater" "spawn" 1 0 true 0.95)
  = if path_exists (Scenario.candidate_only checker)
         (golden_path (Scenario.config [Scenario.position "spawn" (Some 0.90%float)])
            (Scenario.position "spawn" (Some 0.90%float)))
    then threshold_of (Scenario.position "spawn" (Some 0.90%float))
    else 0.95%float.
Proof.
  apply (threshold_recorded true
           (Scenario.config [Scenario.position "spawn" (Some 0.90%float)])
           (Scenario.position "spawn" (Some 0.90%float))
           (Scenario.candidate_only checker)
           (snd (compare_screenshots true
                   (Scenario.config [Scenario.position "spawn" (Some 0.90%float)])
                   (Scenario.position "spawn" (Some 0.90%float))
                   (Scenario.candidate_only checker)))).
  vm_compute. reflexivity.
Defined.

(** C7 as stated fails: a position configured with 0.90 whose reference
    is missing gets an outcome recorded with 0.95. *)
Lemma threshold_recorded_counterexample :
  let p := Scenario.position "spawn" (Some 0.90%float) in
  let config := Scenario.config [p] in
  exists r,
    fst (compare_screenshots true config p (Scenario.candidate_only checker))
    = Ok (Some r)
    /\ ComparisonResult.threshold r = 0.95%float
    /\ threshold_of p = 0.90%float
    /\ PrimFloat.eqb (ComparisonResult.threshold r) (threshold_of p) = false.
Proof. eexists. vm_compute. repeat split. Qed.

(** ** The overall result and the exit status *)

(** C4 (the code departs from it). One position, captured in time, with
    no reference yet: the loop records one outcome and it passed, yet
    [generate_report] raises [KeyError] on the first brace of its style
    sheet, so [run] returns no overall result and the process exits with
    status 1 where every recorded outcome passed. *)
Theorem passing_run_exits_with_failure (format_float : nat -> float -> string) :
  let game := Scenario.capturing checker in
  let s := Scenario.start Scenario.installed in
  let out := run true game format_float Scenario.one (ParityTester_init s) in
  results (snd out)
  = [ComparisonResult.mk "pl_badwater" "spawn" 1 0 true 0.95]
  /\ all_passed (results (snd out)) = true
  /\ fst out = Raised (KeyError " font-family")
  /\ main true game format_float Scenario.one "parity_config.json" s = 1.
Proof. vm_compute. repeat split. Qed.

(** C9 (amended). When the loop has recorded at least one outcome and the
    report cannot be produced, the exception is not caught: it leaves
    [run], which returns no overall result, and the process exits with
    status 1 whatever the recorded outcomes are. *)
Theorem report_failure_is_fatal
  (HAS_PIL : bool)
  (game : nat -> ParityConfig.t -> Position.t -> gmap string file -> proc_outcome)
  (format_float : nat -> float -> string) (config : ParityConfig.t)
  (s s1 : State) (e : exn) :
  run_loop HAS_PIL game config (ParityTester_init s) = (Ok tt, s1) ->
  results s1 <> [] ->
  render_report format_float config (results s1) = Raised e ->
  fst (run HAS_PIL game format_float config (ParityTester_init s)) = Raised e
  /\ forall config_path,
       main HAS_PIL game format_float config config_path s = 1.
Proof.
  intros Hloop Hsome Hreport.
  assert (Hrun : fst (run HAS_PIL game format_float config (ParityTester_init s))
                 = Raised e).
  { rewrite run_result, Hloop. unfold overall_result.
    destruct (results s1); [easy|]. now rewrite Hreport. }
  split; [exact Hrun|].
  intros config_path. unfold main.
  destruct (path_exists s config_path); cbn [negb]; [|reflexivity].
  now rewrite Hrun.
Qed.

(** The amended C9 at a run with one passing outcome. *)
Lemma report_failure_is_fatal_witness :
  fst (run true (Scenario.capturing checker) (fun _ _ => "")
         Scenario.one (ParityTester_init (Scenario.start Scenario.installed)))
  = Raised (KeyError " font-family")
  /\ forall config_path,
       main true (Scenario.capturing checker) (fun _ _ => "") Scenario.one
         config_path (Scenario.start Scenario.installed) = 1.
Proof.
  apply (report_failure_is_fatal true (Scenario.capturing checker)
           (fun _ _ => "") Scenario.one (Scenario.start Scenario.installed)
           (snd (run_loop true (Scenario.capturing checker) Scenario.one
                   (ParityTester_init (Scenario.start Scenario.installed))))).
  - vm_compute. reflexivity.
  - vm_compute. discriminate.
  - reflexivity.
Defined.

(** C9 as stated fails: the report of a run whose only outcome passed
    cannot be produced, and the exit status is 1, not the 0 that the
    recorded outcomes alone would give. *)
Lemma report_failure_counterexample :
  let game := Scenario.capturing checker in
  let s := Scenario.start Scenario.installed in
  let out := run true game (fun _ _ => "") Scenario.one (ParityTester_init s) in
  results (snd out) <> []
  /\ all_passed (results (snd out)) = true
  /\ render_report (fun _ _ => "") Scenario.one (results (snd out))
     = Raised (KeyError " font-family")
  /\ main true game (fun _ _ => "") Scenario.one "parity_config.json" s
     <> (if all_passed (results (snd out)) then 0 else 1).
Proof. vm_compute. repeat split; discriminate. Qed.

(** ** Without the image libraries *)

Section NoLibraries.

Variable game :
  nat -> ParityConfig.t -> Position.t -> gmap string file -> proc_outcome.
Variable config : ParityConfig.t.

(** With the libraries missing a position never yields an outcome,
    captured or not. *)
Lemma quiet_test_position_without_libraries (p : Position.t) :
  quiet (test_position false game config p).
Proof.
  intros s. unfold test_position, bind.
  destruct (quiet_launch_game_headless game config p s) as (b & s1 & E & R).
  rewrite E. destruct b; cbn [negb].
  - unfold compare_screenshots. cbn [negb]. exec.
    eexists _, _. split; [reflexivity|exact R].
  - exec. eexists _, _. split; [reflexivity|exact R].
Qed.

End NoLibraries.

(** C10 (amended). With the image libraries missing, the comparator
    returns no outcome for any position in any state (so also when the
    screenshot was captured). Every run whose two directories can be made
    (no regular file sits at the screenshot directory, at the reference
    directory or at one of their parents) ends with zero recorded
    outcomes and returns true, so that [sys.exit(0 if success else 1)]
    ends the process with status 0. A run whose screenshot directory
    cannot be made raises before any position is tested, and the process
    exits with status 1. *)
Theorem missing_libraries_report_success
  (game : nat -> ParityConfig.t -> Position.t -> gmap string file -> proc_outcome)
  (format_float : nat -> float -> string) (config : ParityConfig.t) :
  (forall p s,
     compare_screenshots false config p s
     = (Ok None, with_console (console s ++ [Printed MsgNoPIL]) s))
  /\ (forall s,
        mkdir_error s (ParityConfig.screenshot_dir config) = None ->
        mkdir_error s (ParityConfig.golden_dir config) = None ->
        let out := run false game format_float config (ParityTester_init s) in
        fst out = Ok true /\ results (snd out) = []
        /\ exit_status (fst out) = 0)
  /\ (forall s e,
        mkdir_error s (ParityConfig.screenshot_dir config) = Some e ->
        let out := run false game format_float config (ParityTester_init s) in
        fst out = Raised e /\ results (snd out) = []
        /\ launches (snd out) = launches s
        /\ exit_status (fst out) = 1).
Proof.
  split; [reflexivity|]. split.
  - intros s Hshots Hgolden out. subst out.
    destruct (quiet_for_each (test_position false game config)
                (ParityConfig.test_positions config)
                (quiet_test_position_without_libraries game config)
                (loop_start config (ParityTester_init s)))
      as (a & s1 & Hloop & Hres).
    rewrite <- (run_loop_from_start false game config) in Hloop
      by (unfold ParityTester_init; now rewrite mkdir_error_with_results).
    cbn in Hres.
    assert (Hrun : fst (run false game format_float config (ParityTester_init s))
                   = Ok true) by now rewrite run_result, Hloop, Hres.
    split; [exact Hrun|]. split; [|now rewrite Hrun].
    destruct (run_state false game format_float config (ParityTester_init s))
      as [-> _].
    now rewrite Hloop.
  - intros s e Hshots out. subst out.
    assert (Hloop := run_loop_stops false game config (ParityTester_init s) e).
    unfold ParityTester_init in Hloop at 1.
    rewrite mkdir_error_with_results in Hloop. specialize (Hloop Hshots).
    assert (Hrun : fst (run false game format_float config (ParityTester_init s))
                   = Raised e) by now rewrite run_result, Hloop.
    split; [exact Hrun|]. split; [|split; [|now rewrite Hrun]].
    + destruct (run_state false game format_float config (ParityTester_init s))
        as [-> _].
      now rewrite Hloop.
    + unfold run. exec. unfold ParityTester_init.
      rewrite mkdir_error_with_console, mkdir_error_with_results, Hshots.
      reflexivity.
Qed.

(** The amended C10 at three positions whose screenshots are all
    captured. *)
Lemma missing_libraries_report_success_witness :
  let out := run false (Scenario.capturing checker) (fun _ _ => "")
               Scenario.three (ParityTester_init (Scenario.start Scenario.installed)) in
  fst out = Ok true /\ results (snd out) = [] /\ exit_status (fst out) = 0.
Proof.
  apply (proj1 (proj2 (missing_libraries_report_success
                         (Scenario.capturing checker) (fun _ _ => "")
                         Scenario.three)));
    vm_compute; reflexivity.
Defined.

(** C10 as stated fails: with the libraries missing and a text file where
    the screenshots go, [run] raises [FileExistsError] instead of
    returning true, and the process exits with status 1. *)
Lemma missing_libraries_counterexample :
  let s := Scenario.start Scenario.shots_taken in
  let out := run false (Scenario.capturing checker) (fun _ _ => "")
               Scenario.three (ParityTester_init s) in
  fst out = Raised (FileExistsError "parity_screenshots")
  /\ fst out <> Ok true
  /\ exit_status (fst out) = 1
  /\ main false (Scenario.capturing checker) (fun _ _ => "") Scenario.three
       "parity_config.json" s = 1.
Proof. vm_compute. repeat split. discriminate. Qed.

(** ** A process that times out *)

Section Timeout.

Variable HAS_PIL : bool.
Variable game :
  nat -> ParityConfig.t -> Position.t -> gmap string file -> proc_outcome.
Variable config : ParityConfig.t.

Lemma test_position_timeout (p : Position.t) (s : State) (fs' : gmap string file) :
  game_exe_found config s = true ->
  game (launches s) config p (files s) = TimedOut fs' ->
  test_position HAS_PIL game config p s
  = (Ok tt, mkState fs' (dirs s) (console_after_timeout config p s) (results s)
              (S (launches s))).
Proof.
  intros Hexe Hgame.
  assert (Hfound : path_exists s (game_exe config s) = true).
  { unfold game_exe_found in Hexe. unfold game_exe.
    destruct (path_exists s (path_join (ParityConfig.game_dir config) "hl2.exe"))
      eqn:Hwin; [exact Hwin|exact Hexe]. }
  unfold test_position, launch_game_headless, console_after_timeout. exec.
  rewrite !path_exists_with_console. fold (game_exe config s).
  rewrite Hfound. cbn [negb]. exec. rewrite Hgame. exec.
  unfold with_console, with_files, with_launches. cbn.
  now rewrite <- !app_assoc.
Qed.

End Timeout.

(** C5 (the code departs from it). When the process of a position times
    out it is killed, the position is skipped and records no outcome, and
    the loop goes on with the remaining positions from the state the
    time-out left. With three positions of which the second times out
    while the first and the third record the outcomes [r1] and [r3], the
    run ends with exactly [[r1; r3]] recorded, in that order, with the
    kill of the second process on the console, and the conjunction of
    the recorded flags is that of the two outcomes. But the run yields
    no overall success from them: the report step raises [KeyError], so
    [run] returns nothing and the process exits with status 1, also when
    both outcomes passed. *)
Theorem timeout_skips_position
  (HAS_PIL : bool)
  (game : nat -> ParityConfig.t -> Position.t -> gmap string file -> proc_outcome)
  (format_float : nat -> float -> string) (config : ParityConfig.t) :
  (forall p s fs',
     game_exe_found config s = true ->
     game (launches s) config p (files s) = TimedOut fs' ->
     exists s',
       test_position HAS_PIL game config p s = (Ok tt, s')
       /\ results s' = results s
       /\ ProcessKilled (Position.name p) ∈ console s'
       /\ Printed (MsgSkipping (Position.name p)) ∈ console s'
       /\ forall rest,
            for_each (p :: rest) (test_position HAS_PIL game config) s
            = for_each rest (test_position HAS_PIL game config) s')
  /\ (forall p1 p2 p3 s s1 s3 r1 r3 fs',
        ParityConfig.test_positions config = [p1; p2; p3] ->
        mkdir_error s (ParityConfig.screenshot_dir config) = None ->
        mkdir_error s (ParityConfig.golden_dir config) = None ->
        test_position HAS_PIL game config p1
          (loop_start config (ParityTester_init s)) = (Ok tt, s1) ->
        results s1 = [r1] ->
        game_exe_found config s1 = true ->
        game (launches s1) config p2 (files s1) = TimedOut fs' ->
        test_position HAS_PIL game config p3
          (snd (test_position HAS_PIL game config p2 s1)) = (Ok tt, s3) ->
        results s3
        = results (snd (test_position HAS_PIL game config p2 s1)) ++ [r3] ->
        let out := run HAS_PIL game format_float config (ParityTester_init s) in
        results (snd out) = [r1; r3]
        /\ ProcessKilled (Position.name p2) ∈ console (snd out)
        /\ all_passed (results (snd out))
           = ComparisonResult.passed r1 && ComparisonResult.passed r3
        /\ fst out = Raised (KeyError " font-family")
        /\ exit_status (fst out) = 1).
Proof.
  assert (Hone : forall p s fs',
    game_exe_found config s = true ->
    game (launches s) config p (files s) = TimedOut fs' ->
    exists s',
      test_position HAS_PIL game config p s = (Ok tt, s')
      /\ results s' = results s
      /\ ProcessKilled (Position.name p) ∈ console s'
      /\ Printed (MsgSkipping (Position.name p)) ∈ console s'
      /\ forall rest,
           for_each (p :: rest) (test_position HAS_PIL game config) s
           = for_each rest (test_position HAS_PIL game config) s').
  { intros p s fs' Hexe Hgame.
    pose proof (test_position_timeout HAS_PIL game config p s fs' Hexe Hgame) as Ht.
    eexists. split; [exact Ht|]. cbn [results console].
    unfold console_after_timeout.
    split; [reflexivity|]. split; [set_solver|]. split; [set_solver|].
    intros rest. cbn [for_each]. unfold bind. now rewrite Ht. }
  split; [exact Hone|].
  intros p1 p2 p3 s s1 s3 r1 r3 fs' Hpos Hshots Hgolden H1 Hr1 Hexe Hgame H3 Hr3 out.
  destruct (Hone p2 s1 fs' Hexe Hgame) as (s2 & H2 & Hr2 & Hkill & _ & _).
  rewrite H2 in H3, Hr3. cbn [snd] in H3, Hr3.
  assert (Hloop : run_loop HAS_PIL game config (ParityTester_init s) = (Ok tt, s3)).
  { rewrite run_loop_from_start
      by (unfold ParityTester_init; now rewrite mkdir_error_with_results).
    rewrite Hpos. cbn [for_each]. unfold bind, ret.
    now rewrite H1, H2, H3. }
  assert (Hres : results s3 = [r1; r3]) by (rewrite Hr3, Hr2, Hr1; reflexivity).
  subst out.
  destruct (run_state HAS_PIL game format_float config (ParityTester_init s))
    as [Hresults Hconsole].
  rewrite Hloop in Hresults, Hconsole. cbn [snd] in Hresults, Hconsole.
  assert (Hrun : fst (run HAS_PIL game format_float config (ParityTester_init s))
                 = Raised (KeyError " font-family")).
  { rewrite run_result, Hloop, Hres. unfold overall_result.
    now rewrite render_report_raises. }
  split; [congruence|]. split; [|split; [|split]].
  - destruct (monotone_test_position HAS_PIL game config p3 _ _ _ H3)
      as [[k3 Hk3] _].
    destruct Hconsole as [k Hk]. rewrite Hk, Hk3. set_solver.
  - rewrite Hresults, Hres. cbn [all_passed forallb]. now rewrite andb_true_r.
  - exact Hrun.
  - now rewrite Hrun.
Qed.

(** C5 at three positions whose second process hangs, the first and the
    third passing. *)
Lemma timeout_skips_position_witness :
  let game := Scenario.hanging_on "p2" checker in
  let p2 := Scenario.position "p2" None in
  let s1 := snd (test_position true game Scenario.three
                   (Scenario.position "p1" None)
                   (loop_start Scenario.three
                      (ParityTester_init (Scenario.start Scenario.installed)))) in
  let out := run true game (fun _ _ => "") Scenario.three
               (ParityTester_init (Scenario.start Scenario.installed)) in
  let r1 := ComparisonResult.mk "pl_badwater" "p1" 1 0 true 0.95 in
  let r3 := ComparisonResult.mk "pl_badwater" "p3" 1 0 true 0.95 in
  (exists s',
     test_position true game Scenario.three p2 s1 = (Ok tt, s')
     /\ results s' = results s1
     /\ ProcessKilled (Position.name p2) ∈ console s'
     /\ Printed (MsgSkipping (Position.name p2)) ∈ console s'
     /\ forall rest,
          for_each (p2 :: rest) (test_position true game Scenario.three) s1
          = for_each rest (test_position true game Scenario.three) s')
  /\ results (snd out) = [r1; r3]
  /\ ProcessKilled "p2" ∈ console (snd out)
  /\ all_passed (results (snd out))
     = ComparisonResult.passed r1 && ComparisonResult.passed r3
  /\ fst out = Raised (KeyError " font-family")
  /\ exit_status (fst out) = 1.
Proof.
  intros game p2 s1 out r1 r3.
  pose (s2 := snd (test_position true game Scenario.three p2 s1)).
  pose (s3 := snd (test_position true game Scenario.three
                     (Scenario.position "p3" None) s2)).
  split.
  - apply (proj1 (timeout_skips_position true game (fun _ _ => "") Scenario.three)
             p2 s1 (files s1)); vm_compute; reflexivity.
  - apply (proj2 (timeout_skips_position true game (fun _ _ => "") Scenario.three)
             (Scenario.position "p1" None) p2
             (Scenario.position "p3" None) (Scenario.start Scenario.installed)
             s1 s3 r1 r3 (files s1)); vm_compute; reflexivity.
Defined.

(** * Further properties of the harness *)

(** ** The report *)

(** [generate_report] never produces a report: for every configuration
    and every list of results it raises [KeyError], before anything is
    written or printed. *)
Theorem generate_report_always_raises
  (format_float : nat -> float -> string) (config : ParityConfig.t) (s : State) :
  generate_report format_float config s = (Raised (KeyError " font-family"), s).
Proof.
  unfold generate_report. exec. now rewrite render_report_raises.
Qed.

(** [run] returns a value only when its loop recorded nothing, and that
    value is true: it never returns false. *)
Theorem run_returns_only_without_outcomes
  (HAS_PIL : bool)
  (game : nat -> ParityConfig.t -> Position.t -> gmap string file -> proc_outcome)
  (format_float : nat -> float -> string) (config : ParityConfig.t)
  (s : State) (b : bool) :
  fst (run HAS_PIL game format_float config s) = Ok b ->
  b = true /\ results (snd (run HAS_PIL game format_float config s)) = [].
Proof.
  intros Hrun. rewrite run_result in Hrun.
  destruct (run_state HAS_PIL game format_float config s) as [Hres _].
  rewrite Hres.
  destruct (run_loop HAS_PIL game config s) as [[[]|e] s1]; [|discriminate].
  cbn [snd]. unfold overall_result in Hrun.
  destruct (results s1) as [|r rs]; [now injection Hrun as <-|].
  now rewrite render_report_raises in Hrun.
Qed.

(** [run_returns_only_without_outcomes] at a run without the image
    libraries. *)
Lemma run_returns_only_without_outcomes_witness :
  true = true
  /\ results (snd (run false (Scenario.capturing checker) (fun _ _ => "")
                     Scenario.three (Scenario.start Scenario.installed))) = [].
Proof.
  apply (run_returns_only_without_outcomes false (Scenario.capturing checker)
           (fun _ _ => "") Scenario.three (Scenario.start Scenario.installed)).
  vm_compute. reflexivity.
Defined.

(** ** Launching the application *)

Lemma game_exe_exists (config : ParityConfig.t) (s : State) :
  path_exists s (game_exe config s) = game_exe_found config s.
Proof.
  unfold game_exe, game_exe_found.
  destruct (path_exists s (path_join (ParityConfig.game_dir config) "hl2.exe"))
    eqn:Hwin; [exact Hwin|reflexivity].
Qed.

(** Without an executable nothing is started: the launch fails, the
    message names the Linux launcher, and files, results and the count
    of started processes stay as they were. *)
Theorem launch_without_executable
  (game : nat -> ParityConfig.t -> Position.t -> gmap string file -> proc_outcome)
  (config : ParityConfig.t) (p : Position.t) (s : State) :
  game_exe_found config s = false ->
  launch_game_headless game config p s
  = (Ok false,
     with_console
       (console s ++ [Printed (MsgLaunching (Position.name p));
                      Printed (MsgExeNotFound
                                 (path_join (ParityConfig.game_dir config) "hl2.sh"))])
       s).
Proof.
  intros Hexe. apply orb_false_elim in Hexe as [Hwin Hlinux].
  unfold launch_game_headless. exec. rewrite !path_exists_with_console.
  rewrite Hwin, Hlinux. cbn [negb]. exec. now rewrite <- app_assoc.
Qed.

(** [launch_without_executable] on a machine with no game installed. *)
Lemma launch_without_executable_witness :
  launch_game_headless (Scenario.capturing checker) Scenario.one
    (Scenario.position "spawn" None) (Scenario.start ∅)
  = (Ok false,
     with_console
       (console (Scenario.start ∅)
        ++ [Printed (MsgLaunching "spawn");
            Printed (MsgExeNotFound
                       (path_join (ParityConfig.game_dir Scenario.one) "hl2.sh"))])
       (Scenario.start ∅)).
Proof.
  apply (launch_without_executable (Scenario.capturing checker) Scenario.one
           (Scenario.position "spawn" None) (Scenario.start ∅)).
  vm_compute. reflexivity.
Defined.

(** A launch succeeds exactly when an executable was found, the process
    ended within the time-out and the screenshot exists among the files it
    left; after a successful launch the screenshot exists and one more
    process has been started. *)
Theorem launch_succeeds_iff
  (game : nat -> ParityConfig.t -> Position.t -> gmap string file -> proc_outcome)
  (config : ParityConfig.t) (p : Position.t) (s s' : State) (b : bool) :
  launch_game_headless game config p s = (Ok b, s') ->
  (b = true <->
   game_exe_found config s = true
   /\ exists fs', game (launches s) config p (files s) = Exited fs'
                  /\ path_exists (with_files fs' s) (test_path config p) = true)
  /\ (b = true ->
      path_exists s' (test_path config p) = true
      /\ launches s' = S (launches s)).
Proof.
  unfold launch_game_headless. exec.
  rewrite !path_exists_with_console. fold (game_exe config s).
  rewrite game_exe_exists.
  destruct (game_exe_found config s); cbn [negb]; exec.
  - destruct (game _ _ _ _) as [fs'|fs'|] eqn:Hgame; exec.
    + change (path_exists (with_files fs' _) (test_path config p))
        with (path_exists (with_files fs' s) (test_path config p)).
      destruct (path_exists (with_files fs' s) (test_path config p)) eqn:Hshot;
        exec; intros [= <- <-]; (split; [split|]); try easy.
      * intros _. split; [reflexivity|]. eauto.
      * intros [_ (fs & [= <-] & H)]. congruence.
    + intros [= <- <-]. split; [split|]; try easy.
      intros [_ (fs & [=] & _)].
    + intros [= <- <-]. split; [split|]; try easy.
      intros [_ (fs & [=] & _)].
  - intros [= <- <-]. split; [split|]; easy.
Qed.

(** [launch_succeeds_iff] at a launch that captures its screenshot. *)
Lemma launch_succeeds_iff_witness :
  let game := Scenario.capturing checker in
  let p := Scenario.position "spawn" None in
  let s := Scenario.start Scenario.installed in
  let s' := snd (launch_game_headless game Scenario.one p s) in
  (true = true <->
   game_exe_found Scenario.one s = true
   /\ exists fs', game (launches s) Scenario.one p (files s) = Exited fs'
                  /\ path_exists (with_files fs' s) (test_path Scenario.one p) = true)
  /\ (true = true ->
      path_exists s' (test_path Scenario.one p) = true
      /\ launches s' = S (launches s)).
Proof.
  apply (launch_succeeds_iff (Scenario.capturing checker) Scenario.one
           (Scenario.position "spawn" None) (Scenario.start Scenario.installed)).
  vm_compute. reflexivity.
Defined.

(** A screenshot already on disk counts as captured: when the process
    exits in time without writing anything, the launch still succeeds. *)
Theorem stale_screenshot_counts_as_captured
  (game : nat -> ParityConfig.t -> Position.t -> gmap string file -> proc_outcome)
  (config : ParityConfig.t) (p : Position.t) (s : State) :
  game_exe_found config s = true ->
  path_exists s (test_path config p) = true ->
  game (launches s) config p (files s) = Exited (files s) ->
  fst (launch_game_headless game config p s) = Ok true.
Proof.
  intros Hexe Hshot Hgame.
  unfold launch_game_headless. exec.
  rewrite !path_exists_with_console. fold (game_exe config s).
  rewrite game_exe_exists, Hexe. cbn [negb]. exec. rewrite Hgame. exec.
  change (path_exists (with_files (files s) _) (test_path config p))
    with (path_exists s (test_path config p)).
  now rewrite Hshot.
Qed.

(** [stale_screenshot_counts_as_captured] with an application that
    writes nothing. *)
Lemma stale_screenshot_counts_as_captured_witness :
  fst (launch_game_headless (fun _ _ _ fs => Exited fs) Scenario.one
         (Scenario.position "spawn" None) (Scenario.candidate_only checker))
  = Ok true.
Proof.
  apply (stale_screenshot_counts_as_captured (fun _ _ _ fs => Exited fs)
           Scenario.one (Scenario.position "spawn" None)
           (Scenario.candidate_only checker)); vm_compute; reflexivity.
Defined.

(** ** What the comparator touches *)

(** Splits a run of [compare_screenshots] into its paths. *)
Ltac compare_paths s config p :=
  unfold compare_screenshots, judge, calculate_mse, Image_open;
  cbn [negb]; exec; rewrite ?path_exists_with_console;
  destruct (path_exists s (test_path config p)) eqn:Htest;
  destruct (path_exists s (golden_path config p)) eqn:Hgolden;
  cbn [negb]; exec; repeat case_match; exec.

Section ComparatorFrame.

Variable HAS_PIL : bool.
Variable config : ParityConfig.t.
Variable p : Position.t.

(** The comparator leaves [self.results] and the process count alone. *)
Lemma compare_frame (s s' : State) (r : result (option ComparisonResult.t)) :
  compare_screenshots HAS_PIL config p s = (r, s') ->
  results s' = results s /\ launches s' = launches s.
Proof.
  destruct HAS_PIL; [|now intros [= <- <-]].
  compare_paths s config p; intros Hrun; simplify_eq; done.
Qed.

(** An outcome names the configured map and the position compared. *)
Lemma compare_identity (s s' : State) (o : ComparisonResult.t) :
  compare_screenshots HAS_PIL config p s = (Ok (Some o), s') ->
  ComparisonResult.position o = Position.name p
  /\ ComparisonResult.map_name o = ParityConfig.map_name config.
Proof.
  destruct HAS_PIL; [|discriminate].
  compare_paths s config p; intros Hrun; simplify_eq; done.
Qed.

(** Outside the bootstrap path the comparator writes no file and creates
    no directory. *)
Lemma compare_readonly (s s' : State) (r : result (option ComparisonResult.t)) :
  HAS_PIL = false \/ path_exists s (test_path config p) = false
  \/ path_exists s (golden_path config p) = true ->
  compare_screenshots HAS_PIL config p s = (r, s') ->
  files s' = files s /\ dirs s' = dirs s.
Proof.
  intros Hpath. destruct HAS_PIL; [|now intros [= <- <-]].
  compare_paths s config p; intros Hrun; simplify_eq; try done.
  all: destruct Hpath as [|[|]]; congruence.
Qed.

End ComparatorFrame.

(** The comparator never touches [self.results] or starts a process, and
    outside the path that creates a missing reference it changes neither
    the files nor the directories: its only effect there is console
    output. *)
Theorem compare_has_no_side_effects
  (HAS_PIL : bool) (config : ParityConfig.t) (p : Position.t)
  (s s' : State) (r : result (option ComparisonResult.t)) :
  compare_screenshots HAS_PIL config p s = (r, s') ->
  results s' = results s
  /\ launches s' = launches s
  /\ (HAS_PIL = false \/ path_exists s (test_path config p) = false
      \/ path_exists s (golden_path config p) = true ->
      files s' = files s /\ dirs s' = dirs s).
Proof.
  intros Hrun.
  destruct (compare_frame HAS_PIL config p s s' r Hrun) as [Hres Hlaunch].
  split; [exact Hres|]. split; [exact Hlaunch|].
  intros Hpath. exact (compare_readonly HAS_PIL config p s s' r Hpath Hrun).
Qed.

(** [compare_has_no_side_effects] at a candidate compared with an
    existing reference. *)
Lemma compare_has_no_side_effects_witness :
  let s := Scenario.both checker checker' in
  let s' := snd (compare_screenshots true Scenario.one
                   (Scenario.position "spawn" None) s) in
  results s' = results s
  /\ launches s' = launches s
  /\ (true = false
      \/ path_exists s (test_path Scenario.one (Scenario.position "spawn" None)) = false
      \/ path_exists s (golden_path Scenario.one (Scenario.position "spawn" None)) = true ->
      files s' = files s /\ dirs s' = dirs s).
Proof.
  apply (compare_has_no_side_effects true Scenario.one
           (Scenario.position "spawn" None) (Scenario.both checker checker')
           _ (fst (compare_screenshots true Scenario.one
                     (Scenario.position "spawn" None)
                     (Scenario.both checker checker')))).
  vm_compute. reflexivity.
Defined.

(** ** Files that do not decode *)

(** When both files exist but one of them does not decode to an image,
    the failure is caught: the comparator prints it and returns no
    outcome, and nothing else changes. *)
Theorem unreadable_image_is_skipped
  (config : ParityConfig.t) (p : Position.t) (s : State) :
  path_exists s (test_path config p) = true ->
  path_exists s (golden_path config p) = true ->
  (forall img, files s !! test_path config p <> Some (ImageFile img))
  \/ (forall img, files s !! golden_path config p <> Some (ImageFile img)) ->
  compare_screenshots true config p s
  = (Ok None,
     with_console (console s ++ [Printed (MsgComparing (Position.name p));
                                 Printed MsgLoadFailed]) s).
Proof.
  intros Htest Hgolden Hbad.
  unfold compare_screenshots, Image_open. cbn [negb]. exec.
  rewrite !path_exists_with_console, Htest, Hgolden. cbn [negb]. exec.
  destruct (files s !! test_path config p) as [[a| |]|] eqn:Ha; exec;
    try (now rewrite <- app_assoc).
  destruct (files s !! golden_path config p) as [[b| |]|] eqn:Hb; exec;
    try (now rewrite <- app_assoc).
  destruct Hbad as [Hbad|Hbad]; [now destruct (Hbad a)|now destruct (Hbad b)].
Qed.

(** [unreadable_image_is_skipped] at a reference that is not an image. *)
Lemma unreadable_image_is_skipped_witness :
  let p := Scenario.position "spawn" None in
  let s := Scenario.start
             (<[ test_path Scenario.one p := ImageFile checker ]>
              (<[ golden_path Scenario.one p := OtherFile ]> Scenario.installed)) in
  compare_screenshots true Scenario.one p s
  = (Ok None,
     with_console (console s ++ [Printed (MsgComparing (Position.name p));
                                 Printed MsgLoadFailed]) s).
Proof.
  apply unreadable_image_is_skipped.
  - vm_compute. reflexivity.
  - vm_compute. reflexivity.
  - right. intros img. vm_compute. discriminate.
Defined.

(** When the reference is missing and the candidate exists but does not
    decode, the failure is not caught and no file is written: when the
    reference directory can be made the comparator raises after making
    it, and when it cannot the comparator raises what [mkdir] raised and
    makes no directory. *)
Theorem undecodable_candidate_without_reference_raises
  (config : ParityConfig.t) (p : Position.t) (s : State) :
  path_exists s (test_path config p) = true ->
  path_exists s (golden_path config p) = false ->
  (forall img, files s !! test_path config p <> Some (ImageFile img)) ->
  let out := compare_screenshots true config p s in
  (exists e, fst out = Raised e)
  /\ files (snd out) = files s
  /\ (mkdir_error s (ParityConfig.golden_dir config) = None ->
      ParityConfig.golden_dir config ∈ dirs (snd out))
  /\ (forall e, mkdir_error s (ParityConfig.golden_dir config) = Some e ->
                fst out = Raised e /\ dirs (snd out) = dirs s).
Proof.
  intros Htest Hgolden Hbad out. subst out.
  unfold compare_screenshots, Image_open. cbn [negb]. exec.
  rewrite !path_exists_with_console, Htest, Hgolden. cbn [negb]. exec.
  rewrite !mkdir_error_with_console.
  destruct (mkdir_error s (ParityConfig.golden_dir config)) as [e|] eqn:Hmkdir; exec.
  - split; [eauto|]. split; [reflexivity|]. split; [discriminate|].
    intros e' [= <-]. now split.
  - assert (Hmade : ParityConfig.golden_dir config
                    ∈ made (ParityConfig.golden_dir config) ∪ dirs s)
      by apply elem_of_union_l, elem_of_made.
    destruct (files s !! test_path config p) as [[a| |]|] eqn:Ha; exec;
      [now destruct (Hbad a)| | |];
      (split; [eauto|]; split; [reflexivity|]; split; [now intros _|discriminate]).
Qed.

(** [undecodable_candidate_without_reference_raises] at a candidate that
    is not an image, with and without a text file where the references
    go. *)
Lemma undecodable_candidate_without_reference_raises_witness :
  let p := Scenario.position "spawn" None in
  let s := Scenario.start
             (<[ test_path Scenario.one p := OtherFile ]> Scenario.installed) in
  let s' := Scenario.start
              (<[ test_path Scenario.one p := OtherFile ]> Scenario.golden_taken) in
  let out := compare_screenshots true Scenario.one p s in
  let out' := compare_screenshots true Scenario.one p s' in
  ParityConfig.golden_dir Scenario.one ∈ dirs (snd out)
  /\ fst out' = Raised (FileExistsError "parity_golden")
  /\ dirs (snd out') = dirs s'.
Proof.
  intros p s s' out out'. split.
  - apply (undecodable_candidate_without_reference_raises Scenario.one p s).
    + vm_compute. reflexivity.
    + vm_compute. reflexivity.
    + intros img. vm_compute. discriminate.
    + vm_compute. reflexivity.
  - apply (undecodable_candidate_without_reference_raises Scenario.one p s').
    + vm_compute. reflexivity.
    + vm_compute. reflexivity.
    + intros img. vm_compute. discriminate.
    + vm_compute. reflexivity.
Defined.

(** ** The recorded outcomes *)

Section Recorded.

Variable HAS_PIL : bool.
Variable game :
  nat -> ParityConfig.t -> Position.t -> gmap string file -> proc_outcome.
Variable config : ParityConfig.t.

(** One position adds at most one outcome, named after it. *)
Lemma test_position_appends (p : Position.t) (s s' : State) (r : result unit) :
  test_position HAS_PIL game config p s = (r, s') ->
  results s' = results s
  \/ exists o, results s' = results s ++ [o]
               /\ ComparisonResult.position o = Position.name p
               /\ ComparisonResult.map_name o = ParityConfig.map_name config.
Proof.
  unfold test_position, bind.
  destruct (quiet_launch_game_headless game config p s) as (b & s1 & E & R).
  rewrite E. destruct b; cbn [negb].
  - destruct (compare_screenshots HAS_PIL config p s1) as [[[o|]|e] s2] eqn:Hc.
    + destruct (compare_frame _ _ _ _ _ _ Hc) as [R2 _].
      destruct (compare_identity _ _ _ _ _ _ Hc) as [Hpos Hmap].
      exec. intros [= <- <-]. right. exists o. cbn. split; [congruence|easy].
    + destruct (compare_frame _ _ _ _ _ _ Hc) as [R2 _].
      exec. intros [= <- <-]. left. congruence.
    + destruct (compare_frame _ _ _ _ _ _ Hc) as [R2 _].
      intros [= <- <-]. left. congruence.
  - exec. intros [= <- <-]. now left.
Qed.

Lemma for_each_appends (ps : list Position.t) (s s' : State) (r : result unit) :
  for_each ps (test_position HAS_PIL game config) s = (r, s') ->
  exists new,
    results s' = results s ++ new
    /\ map ComparisonResult.position new `sublist_of` map Position.name ps
    /\ Forall (fun o => ComparisonResult.map_name o = ParityConfig.map_name config)
              new.
Proof.
  revert s. induction ps as [|p ps IH]; intros s; cbn [for_each].
  - intros [= <- <-]. exists []. rewrite app_nil_r. repeat split; constructor.
  - unfold bind.
    destruct (test_position HAS_PIL game config p s) as [[[]|e] s1] eqn:Hp.
    + intros Hrest. destruct (IH _ Hrest) as (new & Hnew & Hsub & Hall).
      destruct (test_position_appends _ _ _ _ Hp) as [Hs1|(o & Hs1 & Hpos & Hmap)].
      * exists new. rewrite Hnew, Hs1. repeat split; [|exact Hall].
        cbn [map]. now apply sublist_cons.
      * exists (o :: new). rewrite Hnew, Hs1, <- app_assoc.
        repeat split; [|now constructor].
        cbn [map]. rewrite Hpos. now apply sublist_skip.
    + intros [= <- <-].
      destruct (test_position_appends _ _ _ _ Hp) as [Hs1|(o & Hs1 & Hpos & Hmap)].
      * exists []. rewrite Hs1, app_nil_r. repeat split; [|constructor].
        apply sublist_nil_l.
      * exists [o]. rewrite Hs1. repeat split; [|now repeat constructor].
        cbn [map]. rewrite Hpos. apply sublist_skip, sublist_nil_l.
Qed.

(** [run] up to the end of its loop only adds outcomes of the configured
    positions, in their order. *)
Lemma run_loop_appends (s s' : State) (r : result unit) :
  run_loop HAS_PIL game config s = (r, s') ->
  exists new,
    results s' = results s ++ new
    /\ map ComparisonResult.position new
       `sublist_of` map Position.name (ParityConfig.test_positions config)
    /\ Forall (fun o => ComparisonResult.map_name o = ParityConfig.map_name config)
              new.
Proof.
  assert (Hnone : forall s0 : State, results s0 = results s ->
            exists new,
              results s0 = results s ++ new
              /\ map ComparisonResult.position new
                 `sublist_of` map Position.name (ParityConfig.test_positions config)
              /\ Forall (fun o => ComparisonResult.map_name o
                                  = ParityConfig.map_name config) new).
  { intros s0 H0. exists []. rewrite app_nil_r.
    repeat split; [exact H0|apply sublist_nil_l|constructor]. }
  unfold run_loop. exec.
  destruct (mkdir_error _ _); [intros [= <- <-]; now apply Hnone|]. exec.
  destruct (mkdir_error _ _); [intros [= <- <-]; now apply Hnone|]. exec.
  intros Hloop. exact (for_each_appends _ _ _ _ Hloop).
Qed.

End Recorded.

(** Whatever happens during a run, the outcomes it has recorded at its
    end follow the configured positions: their position names are a
    subsequence of the names of [test_positions], in configuration order,
    each carries the configured map name, and there are at most as many
    outcomes as positions. *)
Theorem recorded_outcomes_follow_positions
  (HAS_PIL : bool)
  (game : nat -> ParityConfig.t -> Position.t -> gmap string file -> proc_outcome)
  (format_float : nat -> float -> string) (config : ParityConfig.t) (s : State) :
  let rs := results (snd (run HAS_PIL game format_float config
                            (ParityTester_init s))) in
  map ComparisonResult.position rs
    `sublist_of` map Position.name (ParityConfig.test_positions config)
  /\ Forall (fun o => ComparisonResult.map_name o = ParityConfig.map_name config) rs
  /\ (length rs <= length (ParityConfig.test_positions config))%nat.
Proof.
  intros rs. subst rs.
  destruct (run_state HAS_PIL game format_float config (ParityTester_init s))
    as [-> _].
  destruct (run_loop HAS_PIL game config (ParityTester_init s)) as [r s'] eqn:Hloop.
  destruct (run_loop_appends _ _ _ _ _ _ Hloop) as (new & Hnew & Hsub & Hall).
  cbn [snd]. rewrite Hnew. cbn [ParityTester_init results with_results app].
  repeat split; [exact Hsub|exact Hall|].
  apply sublist_length in Hsub. now rewrite !length_map in Hsub.
Qed.

(** ** Counting the outcomes *)

(** The passed and failed counts of the report add up to the total, so
    the failed count of the report is the one of the summary, and [run]'s
    conjunction of the flags holds exactly when no outcome failed. *)
Theorem outcome_counts (rs : list ComparisonResult.t) :
  (count_passed rs + count_failed rs = length rs)%nat
  /\ count_failed rs = (length rs - count_passed rs)%nat
  /\ (all_passed rs = true <-> count_failed rs = 0%nat).
Proof.
  unfold count_passed, count_failed, all_passed.
  induction rs as [|r rs (IH1 & IH2 & IH3)]; [easy|].
  rewrite !filter_cons. cbn [forallb length].
  destruct (ComparisonResult.passed r) eqn:Hr.
  - rewrite decide_True, decide_False by easy. cbn [length andb].
    repeat split; try lia; apply IH3.
  - rewrite decide_False, decide_True by easy. cbn [length andb].
    repeat split; try lia; easy.
Qed.

(** ** A configuration without positions *)

(** With no position to test and both directories ready to be made (no
    regular file at either place or at one of their parents), [run]
    starts no process, records nothing, writes no file, prints the banner
    and an all-zero summary, and returns true. *)
Theorem run_without_positions
  (HAS_PIL : bool)
  (game : nat -> ParityConfig.t -> Position.t -> gmap string file -> proc_outcome)
  (format_float : nat -> float -> string) (config : ParityConfig.t) (s : State) :
  ParityConfig.test_positions config = [] ->
  mkdir_error s (ParityConfig.screenshot_dir config) = None ->
  mkdir_error s (ParityConfig.golden_dir config) = None ->
  let out := run HAS_PIL game format_float config (ParityTester_init s) in
  fst out = Ok true
  /\ results (snd out) = []
  /\ files (snd out) = files s
  /\ launches (snd out) = launches s
  /\ console (snd out)
     = console s ++ [Printed (MsgBanner (ParityConfig.map_name config) 0);
                     Printed (MsgSummary 0 0 0)].
Proof.
  intros Hnone Hshots Hgolden out. subst out.
  unfold run, print_summary, ParityTester_init. rewrite Hnone.
  cbn [for_each length]. exec.
  rewrite mkdir_error_with_console, mkdir_error_with_results, Hshots. exec.
  rewrite (mkdir_error_more_dirs s) by (try reflexivity; try assumption; cbn; set_solver).
  exec. cbn [count_passed all_passed forallb length].
  repeat split. now rewrite <- app_assoc.
Qed.

(** [run_without_positions] at an empty configuration. *)
Lemma run_without_positions_witness :
  let s := Scenario.start Scenario.installed in
  let out := run true (Scenario.capturing checker) (fun _ _ => "")
               (Scenario.config []) (ParityTester_init s) in
  fst out = Ok true
  /\ results (snd out) = []
  /\ files (snd out) = files s
  /\ launches (snd out) = launches s
  /\ console (snd out)
     = console s ++ [Printed (MsgBanner (ParityConfig.map_name (Scenario.config [])) 0);
                     Printed (MsgSummary 0 0 0)].
Proof.
  apply (run_without_positions true (Scenario.capturing checker) (fun _ _ => "")
           (Scenario.config []) (Scenario.start Scenario.installed));
    vm_compute; reflexivity.
Defined.

(** ** When the similarity metric raises *)

Lemma broadcast_dim_none (m n : nat) :
  Np.broadcast_dim m n = None <-> ~ (m = n \/ m = 1%nat \/ n = 1%nat).
Proof.
  unfold Np.broadcast_dim.
  destruct (Nat.eqb_spec m n), (Nat.eqb_spec m 1), (Nat.eqb_spec n 1);
    split; try easy; intuition lia.
Qed.

(** With the libraries available the similarity metric raises exactly
    when the two images differ in height with neither height equal to 1,
    or differ in width with neither width equal to 1: two images that
    broadcast together always get a value, whatever their modes. *)
Theorem calculate_ssim_raises_iff (a b : Image) :
  (exists e, calculate_ssim true a b = Raised e)
  <-> ~ ((im_height a = im_height b \/ im_height a = 1%nat \/ im_height b = 1%nat)
         /\ (im_width a = im_width b \/ im_width a = 1%nat \/ im_width b = 1%nat)).
Proof.
  unfold calculate_ssim, Np.multiply. cbn [negb]. cbv zeta.
  cbn [rows cols Np.sub_scalar luminance].
  destruct (Np.broadcast_dim (im_height a) (im_height b)) as [h|] eqn:Hh.
  - destruct (Np.broadcast_dim (im_width a) (im_width b)) as [w|] eqn:Hw.
    + assert (Hh' : ~ Np.broadcast_dim (im_height a) (im_height b) = None)
        by congruence.
      assert (Hw' : ~ Np.broadcast_dim (im_width a) (im_width b) = None)
        by congruence.
      rewrite broadcast_dim_none in Hh', Hw'.
      split.
      * intros [e He]. destruct (_ || _); discriminate.
      * intros Hno. exfalso. apply Hno. split.
        -- destruct (Nat.eq_dec (im_height a) (im_height b));
             destruct (Nat.eq_dec (im_height a) 1%nat);
             destruct (Nat.eq_dec (im_height b) 1%nat); intuition.
        -- destruct (Nat.eq_dec (im_width a) (im_width b));
             destruct (Nat.eq_dec (im_width a) 1%nat);
             destruct (Nat.eq_dec (im_width b) 1%nat); intuition.
    + apply broadcast_dim_none in Hw. split; [|eauto].
      intros _ [_ Hok]. now apply Hw.
  - apply broadcast_dim_none in Hh. split; [|eauto].
    intros _ [Hok _]. now apply Hh.
Qed.

(** ** Symmetry of the similarity metric *)

Section Symmetry.

Lemma SFmul_comm (prec emax : Z) (x y : spec_float) :
  SFmul prec emax x y = SFmul prec emax y x.
Proof.
  destruct x as [sx|sx| |sx mx ex], y as [sy|sy| |sy my ey]; unfold SFmul;
    try reflexivity; try (now rewrite (xorb_comm sx sy)).
  now rewrite (xorb_comm sx sy), (Pos.mul_comm mx my), (Z.add_comm ex ey).
Qed.

(** Multiplication of binary64 values commutes, bit for bit. *)
Lemma float_mul_comm (x y : float) : (x * y = y * x)%float.
Proof.
  rewrite <- (FloatAxioms.SF2Prim_Prim2SF (x * y)),
          <- (FloatAxioms.SF2Prim_Prim2SF (y * x)).
  rewrite !FloatAxioms.mul_spec. unfold SF64mul. now rewrite SFmul_comm.
Qed.

Lemma broadcast_dim_comm (m n : nat) :
  Np.broadcast_dim m n = Np.broadcast_dim n m.
Proof.
  unfold Np.broadcast_dim.
  destruct (Nat.eqb_spec m n), (Nat.eqb_spec n m), (Nat.eqb_spec m 1),
    (Nat.eqb_spec n 1); congruence.
Qed.

Lemma multiply_comm (a b : array2 float) : Np.multiply a b = Np.multiply b a.
Proof.
  unfold Np.multiply.
  rewrite (broadcast_dim_comm (rows a)), (broadcast_dim_comm (cols a)).
  destruct (Np.broadcast_dim (rows b) (rows a)); [|reflexivity].
  destruct (Np.broadcast_dim (cols b) (cols a)); [|reflexivity].
  do 2 f_equal. apply flat_map_ext_on. intros i _. apply map_ext. intros j.
  apply float_mul_comm.
Qed.

Lemma array_equal_comm (a b : array2 Z) :
  Np.array_equal a b = Np.array_equal b a.
Proof.
  unfold Np.array_equal.
  rewrite (Nat.eqb_sym (rows a)), (Nat.eqb_sym (cols a)). f_equal.
  apply bool_decide_ext. split; congruence.
Qed.

End Symmetry.

(** The similarity metric is symmetric, bit for bit: comparing the
    candidate with the reference or the reference with the candidate
    gives the same value, or the same exception. *)
Theorem calculate_ssim_symmetric (has_pil : bool) (a b : Image) :
  calculate_ssim has_pil a b = calculate_ssim has_pil b a.
Proof.
  unfold calculate_ssim. destruct has_pil; cbn [negb]; [|reflexivity].
  cbv zeta. rewrite multiply_comm.
  destruct (Np.multiply _ _) as [prod|e]; [|reflexivity].
  rewrite (orb_comm (PrimFloat.eqb (Np.std (cells (luminance a))) 0)).
  destruct (_ || _).
  - now rewrite array_equal_comm.
  - now rewrite (float_mul_comm (Np.std (cells (luminance a)))).
Qed.

(** ** Directories *)

Section Directories.

Lemma keeps_dirs_ret {A} (a : A) : keeps_dirs (ret a).
Proof. now intros s r s' [= <- <-]. Qed.

Lemma keeps_dirs_lift {A} (r : result A) : keeps_dirs (lift r).
Proof. now intros s r' s' [= <- <-]. Qed.

Lemma keeps_dirs_bind {A B} (m : M A) (k : A -> M B) :
  keeps_dirs m -> (forall a, keeps_dirs (k a)) -> keeps_dirs (bind m k).
Proof.
  intros Hm Hk s r s'. unfold bind.
  destruct (m s) as [[a|e] s1] eqn:E1; intros E2.
  - etrans; [exact (Hm _ _ _ E1)|exact (Hk _ _ _ _ E2)].
  - injection E2 as <- <-. exact (Hm _ _ _ E1).
Qed.

Lemma keeps_dirs_try_except {A} (m : M A) (h : exn -> M A) :
  keeps_dirs m -> (forall e, keeps_dirs (h e)) -> keeps_dirs (try_except m h).
Proof.
  intros Hm Hh s r s'. unfold try_except.
  destruct (m s) as [[a|e] s1] eqn:E1; intros E2.
  - injection E2 as <- <-. exact (Hm _ _ _ E1).
  - etrans; [exact (Hm _ _ _ E1)|exact (Hh _ _ _ _ E2)].
Qed.

Lemma keeps_dirs_emit (e : event) : keeps_dirs (emit e).
Proof. now intros s r s' [= <- <-]. Qed.

Lemma keeps_dirs_print (m : message) : keeps_dirs (print m).
Proof. apply keeps_dirs_emit. Qed.

Lemma keeps_dirs_get : keeps_dirs get.
Proof. now intros s r s' [= <- <-]. Qed.

Lemma keeps_dirs_mkdir (p : string) : keeps_dirs (mkdir p).
Proof.
  intros s r s'. unfold mkdir.
  destruct (mkdir_error s p); intros [= <- <-]; cbn; set_solver.
Qed.

Lemma keeps_dirs_Image_open (p : string) : keeps_dirs (Image_open p).
Proof.
  intros s r s'. unfold Image_open.
  destruct (files s !! p) as [[]|]; now intros [= <- <-].
Qed.

Lemma keeps_dirs_Image_save (img : Image) (p : string) :
  keeps_dirs (Image_save img p).
Proof. now intros s r s' [= <- <-]. Qed.

Lemma keeps_dirs_write_text (p text : string) : keeps_dirs (write_text p text).
Proof. now intros s r s' [= <- <-]. Qed.

Lemma keeps_dirs_set_files (fs : gmap string file) : keeps_dirs (set_files fs).
Proof. now intros s r s' [= <- <-]. Qed.

Lemma keeps_dirs_append_result (r : ComparisonResult.t) :
  keeps_dirs (append_result r).
Proof. now intros s r' s' [= <- <-]. Qed.

End Directories.

Create HintDb dirs discriminated.
#[global] Hint Resolve keeps_dirs_ret keeps_dirs_lift keeps_dirs_emit
  keeps_dirs_print keeps_dirs_get keeps_dirs_mkdir keeps_dirs_Image_open
  keeps_dirs_Image_save keeps_dirs_write_text keeps_dirs_set_files
  keeps_dirs_append_result : dirs.

(** Splits a step along its binds, conditionals and matches. *)
Ltac dirs_cases :=
  repeat first
    [ apply keeps_dirs_bind; [|intros ?]
    | apply keeps_dirs_try_except; [|intros ?]
    | match goal with
      | |- keeps_dirs (if ?b then _ else _) => destruct b
      | |- keeps_dirs (match ?x with _ => _ end) => destruct x
      | |- keeps_dirs (let _ := _ in _) => cbv zeta
      end
    | solve [auto with dirs] ].

Section HarnessDirectories.

Variable HAS_PIL : bool.
Variable game :
  nat -> ParityConfig.t -> Position.t -> gmap string file -> proc_outcome.
Variable format_float : nat -> float -> string.
Variable config : ParityConfig.t.

Lemma keeps_dirs_spawn_and_wait (p : Position.t) :
  keeps_dirs (spawn_and_wait game config p).
Proof. now intros s r s' [= <- <-]. Qed.

Hint Resolve keeps_dirs_spawn_and_wait : dirs.

Lemma keeps_dirs_test_position (p : Position.t) :
  keeps_dirs (test_position HAS_PIL game config p).
Proof.
  unfold test_position, launch_game_headless, compare_screenshots, judge,
    calculate_mse.
  dirs_cases.
Qed.

Lemma keeps_dirs_for_each {X} (body : X -> M unit) (xs : list X) :
  (forall a, keeps_dirs (body a)) -> keeps_dirs (for_each xs body).
Proof.
  intros Hb. induction xs as [|a xs IH]; simpl; dirs_cases.
Qed.

Hint Resolve keeps_dirs_test_position : dirs.

Lemma keeps_dirs_run : keeps_dirs (run HAS_PIL game format_float config).
Proof.
  unfold run, generate_report, print_summary.
  repeat (apply keeps_dirs_bind; [|intros ?]); auto with dirs.
  - now apply keeps_dirs_for_each, keeps_dirs_test_position.
  - dirs_cases.
Qed.

End HarnessDirectories.

(** No directory ever disappears during a run, however it ends. When
    both directories can be made (no regular file sits at either place
    or at one of their parents), the screenshot directory and the
    reference directory exist afterwards, whether the run ends by a value
    or by an exception. When the screenshot directory cannot be made, the
    run raises what [mkdir] raised and leaves directories, files and the
    count of processes as they were. *)
Theorem run_creates_directories
  (HAS_PIL : bool)
  (game : nat -> ParityConfig.t -> Position.t -> gmap string file -> proc_outcome)
  (format_float : nat -> float -> string) (config : ParityConfig.t) (s : State) :
  let out := run HAS_PIL game format_float config s in
  dirs s ⊆ dirs (snd out)
  /\ (mkdir_error s (ParityConfig.screenshot_dir config) = None ->
      mkdir_error s (ParityConfig.golden_dir config) = None ->
      ParityConfig.screenshot_dir config ∈ dirs (snd out)
      /\ ParityConfig.golden_dir config ∈ dirs (snd out))
  /\ (forall e,
        mkdir_error s (ParityConfig.screenshot_dir config) = Some e ->
        fst out = Raised e
        /\ dirs (snd out) = dirs s
        /\ files (snd out) = files s
        /\ launches (snd out) = launches s).
Proof.
  intros out. subst out. split; [|split].
  - destruct (run HAS_PIL game format_float config s) as [r s1] eqn:Hrun.
    exact (keeps_dirs_run HAS_PIL game format_float config _ _ _ Hrun).
  - intros Hshots Hgolden.
    rewrite run_dirs, (run_loop_from_start _ _ _ _ Hshots Hgolden).
    destruct (for_each _ _ _) as [r s1] eqn:Hloop.
    assert (Hkept : dirs (loop_start config s) ⊆ dirs s1).
    { apply (keeps_dirs_for_each _ _ (keeps_dirs_test_position HAS_PIL game config)
               _ _ _ Hloop). }
    cbn [snd loop_start dirs with_dirs with_console] in *.
    split; apply Hkept.
    + apply elem_of_union_r, elem_of_union_l, elem_of_made.
    + apply elem_of_union_l, elem_of_made.
  - intros e Hshots. unfold run. exec.
    rewrite mkdir_error_with_console, Hshots. now repeat split.
Qed.

(** [run_creates_directories] at a first run, and at a run with a text
    file where the screenshots go. *)
Lemma run_creates_directories_witness :
  let out := run true (Scenario.capturing checker) (fun _ _ => "") Scenario.one
               (Scenario.start Scenario.installed) in
  let out' := run true (Scenario.capturing checker) (fun _ _ => "") Scenario.one
                (Scenario.start Scenario.shots_taken) in
  (ParityConfig.screenshot_dir Scenario.one ∈ dirs (snd out)
   /\ ParityConfig.golden_dir Scenario.one ∈ dirs (snd out))
  /\ fst out' = Raised (FileExistsError "parity_screenshots")
  /\ dirs (snd out') = dirs (Scenario.start Scenario.shots_taken)
  /\ files (snd out') = files (Scenario.start Scenario.shots_taken)
  /\ launches (snd out') = launches (Scenario.start Scenario.shots_taken).
Proof.
  intros out out'. split.
  - apply (run_creates_directories true (Scenario.capturing checker)
             (fun _ _ => "") Scenario.one (Scenario.start Scenario.installed));
      vm_compute; reflexivity.
  - apply (run_creates_directories true (Scenario.capturing checker)
             (fun _ _ => "") Scenario.one (Scenario.start Scenario.shots_taken)).
    vm_compute. reflexivity.
Defined.

(** ** Loading the configuration *)

(** With the three required keys present and [game_dir] a string, a file
    that has none of the optional keys loads with the documented
    defaults: [parity_screenshots], [parity_golden], no cvars and a
    time-out of 30. *)
Theorem load_config_defaults
  (data : gmap string json) (map_name positions : json) (game_dir : string) :
  data !! "map_name" = Some map_name ->
  data !! "game_dir" = Some (JString game_dir) ->
  data !! "test_positions" = Some positions ->
  data !! "screenshot_dir" = None ->
  data !! "golden_dir" = None ->
  data !! "cvars" = None ->
  data !! "timeout" = None ->
  load_config data
  = inr (RawConfig.mk map_name game_dir "parity_screenshots" "parity_golden"
           positions (JObject []) (JInt 30)).
Proof.
  intros Hmap Hgame Hpos Hshots Hgold Hcvars Htimeout.
  unfold load_config, subscript, dict_get.
  now rewrite Hmap, Hgame, Hpos, Hshots, Hgold, Hcvars, Htimeout.
Qed.

(** [load_config_defaults] at a file with the required keys only. *)
Lemma load_config_defaults_witness :
  load_config minimal_file
  = inr (RawConfig.mk (JString "pl_badwater") "game" "parity_screenshots"
           "parity_golden" (JArray []) (JObject []) (JInt 30)).
Proof.
  apply load_config_defaults; vm_compute; reflexivity.
Defined.

(** A key that [load_config] does not read changes nothing: the file may
    carry any other entry. *)
Theorem load_config_ignores_other_keys
  (data : gmap string json) (key : string) (value : json) :
  key ∉ config_keys ->
  load_config (<[ key := value ]> data) = load_config data.
Proof.
  intros Hkey. unfold config_keys in Hkey.
  unfold load_config, subscript, dict_get.
  rewrite !lookup_insert_ne by set_solver. reflexivity.
Qed.

(** [load_config_ignores_other_keys] at a comment entry. *)
Lemma load_config_ignores_other_keys_witness :
  load_config (<[ "comment" := JString "first run" ]> minimal_file)
  = load_config minimal_file.
Proof.
  apply load_config_ignores_other_keys.
  unfold config_keys. intros H.
  repeat (apply elem_of_cons in H as [H|H]; [discriminate|]).
  now apply elem_of_nil in H.
Defined.

(** An optional key that is present is taken as it is, [null] included:
    a [null] time-out is kept instead of the default 30, and a [null]
    screenshot directory makes [Path] fail instead of falling back to the
    default directory. *)
Theorem load_config_keeps_null
  (data : gmap string json) (map_name positions : json) (game_dir : string) :
  data !! "map_name" = Some map_name ->
  data !! "game_dir" = Some (JString game_dir) ->
  data !! "test_positions" = Some positions ->
  (data !! "screenshot_dir" = Some JNull ->
   load_config data = inl (NotAPath JNull))
  /\ (data !! "screenshot_dir" = None -> data !! "golden_dir" = None ->
      data !! "timeout" = Some JNull ->
      exists c, load_config data = inr c /\ RawConfig.timeout c = JNull).
Proof.
  intros Hmap Hgame Hpos. unfold load_config, subscript, dict_get. split.
  - intros Hshots. now rewrite Hmap, Hgame, Hshots.
  - intros Hshots Hgold Htimeout.
    rewrite Hmap, Hgame, Hpos, Hshots, Hgold, Htimeout. cbn. eauto.
Qed.

(** [load_config_keeps_null] at a file whose time-out is [null]. *)
Lemma load_config_keeps_null_witness :
  exists c,
    load_config null_timeout_file = inr c /\ RawConfig.timeout c = JNull.
Proof.
  apply (proj2 (load_config_keeps_null null_timeout_file
                  (JString "pl_badwater") (JArray []) "game"
                  ltac:(vm_compute; reflexivity) ltac:(vm_compute; reflexivity)
                  ltac:(vm_compute; reflexivity)));
    vm_compute; reflexivity.
Defined.

(** A [KeyError] from [load_config] always names one of the three
    required keys, and that key is missing from the file: no optional key
    can cause it. *)
Theorem load_config_key_error (data : gmap string json) (key : string) :
  load_config data = inl (MissingKey key) ->
  key ∈ ["map_name"; "game_dir"; "test_positions"] /\ data !! key = None.
Proof.
  unfold load_config, subscript, dict_get, Path.
  destruct (data !! "map_name") eqn:Hmap; [|intros [= <-]; split; [set_solver|easy]].
  destruct (data !! "game_dir") as [[]|] eqn:Hgame;
    try discriminate; [|intros [= <-]; split; [set_solver|easy]].
  destruct (default _ (data !! "screenshot_dir")); try discriminate.
  destruct (default _ (data !! "golden_dir")); try discriminate.
  destruct (data !! "test_positions") eqn:Hpos; [discriminate|].
  intros [= <-]. split; [set_solver|easy].
Qed.

(** [load_config_key_error] at a file without [game_dir]. *)
Lemma load_config_key_error_witness :
  "game_dir" ∈ ["map_name"; "game_dir"; "test_positions"]
  /\ delete "game_dir" minimal_file !! "game_dir" = None.
Proof.
  apply (load_config_key_error (delete "game_dir" minimal_file)).
  vm_compute. reflexivity.
Defined.

(** ** The command line *)

(** The argument list has 24 entries plus three per cvar; its first ten
    entries (the ones the console shows) depend on neither the cvars nor
    the position, and it always ends with the wait, the capture of the
    position's screenshot and the quit directive, in that order. *)
Theorem build_args_shape
  (str : float -> string) (config : ParityConfig.t) (game_exe : string)
  (p : Position.t) :
  let args := build_args str config game_exe p in
  length args = (24 + 3 * length (ParityConfig.cvars config))%nat
  /\ firstn 10 args
     = [game_exe; "-game"; "mod_tf"; "+map"; ParityConfig.map_name config;
        "-windowed"; "-noborder"; "-w"; "1920"; "-h"]
  /\ skipn (length args - 5) args
     = ["+wait"; "100"; "+screenshot"; screenshot_name config p; "+quit"].
Proof.
  intros args. subst args. unfold build_args.
  assert (Hlen : forall cs : list (string * string),
            length (flat_map (fun cvar => ["+"; fst cvar; snd cvar]) cs)
            = (3 * length cs)%nat).
  { induction cs as [|c cs IH]; [reflexivity|]. cbn [flat_map length app].
    rewrite IH. lia. }
  split; [|split].
  - rewrite !length_app, Hlen. cbn [length]. lia.
  - reflexivity.
  - rewrite !app_assoc. rewrite length_app. cbn [length].
    rewrite Nat.add_sub. now rewrite skipn_app, skipn_all, Nat.sub_diag.
Qed.


(** * Properties of the fetcher *)

(** ** Paths *)

Lemma string_append_assoc (a b c : string) :
  String.append (String.append a b) c = String.append a (String.append b c).
Proof.
  induction a as [|x a IH]; [reflexivity|].
  change (String x ((a +:+ b) +:+ c) = String x (a +:+ b +:+ c)). now rewrite IH.
Qed.

Lemma string_append_inj (a b c : string) :
  String.append a b = String.append a c -> b = c.
Proof.
  induction a as [|x a IH]; [easy|].
  change (String x (a +:+ b) = String x (a +:+ c) -> b = c). intros [= H]. auto.
Qed.

Lemma string_append_length (a b : string) :
  String.length (String.append a b) = (String.length a + String.length b)%nat.
Proof.
  induction a as [|x a IH]; [reflexivity|].
  change (S (String.length (a +:+ b)) = S (String.length a + String.length b)).
  now rewrite IH.
Qed.

Lemma path_join_inj (dir a b : string) :
  path_join dir a = path_join dir b -> a = b.
Proof.
  unfold path_join. intros H. apply string_append_inj in H.
  now apply (string_append_inj "/") in H.
Qed.

Lemma path_join_nested (dir sub name : string) :
  path_join (path_join dir sub) name = path_join dir (path_join sub name).
Proof. unfold path_join. now rewrite !string_append_assoc. Qed.

Lemma path_join_longer (dir name : string) : path_join dir name <> dir.
Proof.
  intros E. apply (f_equal String.length) in E. unfold path_join in E.
  rewrite !string_append_length in E. simpl in E. lia.
Qed.

Lemma path_join_grows (dir name : string) :
  (String.length dir < String.length (path_join dir name))%nat.
Proof.
  unfold path_join. rewrite !string_append_length. cbn [String.length]. lia.
Qed.

(** Every parent of a path is shorter than the path. *)
Lemma parents_from_shorter (seen rest a : string) :
  a ∈ parents_from seen rest ->
  (String.length a < String.length seen + String.length rest)%nat.
Proof.
  revert seen. induction rest as [|c rest IH]; intros seen Ha; cbn in Ha.
  - now apply elem_of_nil in Ha.
  - apply elem_of_app in Ha as [Ha|Ha].
    + destruct (_ && _); [|now apply elem_of_nil in Ha].
      apply list_elem_of_singleton in Ha as ->. cbn [String.length]. lia.
    + apply IH in Ha. rewrite string_append_length in Ha.
      cbn [String.length] in *. lia.
Qed.

Lemma parents_shorter (p a : string) :
  a ∈ parents p -> (String.length a < String.length p)%nat.
Proof. intros Ha. now apply parents_from_shorter in Ha. Qed.

(** The manifest is no map of the output directory. *)
Lemma manifest_is_no_map (output_dir m : string) :
  path_join output_dir "manifest.json" <> path_join (path_join output_dir "maps") m.
Proof.
  rewrite path_join_nested. intros E. apply path_join_inj in E.
  unfold path_join in E. simpl in E. discriminate.
Qed.

Lemma manifest_is_longer (output_dir : string) :
  (String.length (path_join output_dir "maps")
   < String.length (path_join output_dir "manifest.json"))%nat.
Proof.
  unfold path_join. rewrite !string_append_length. cbn [String.length]. lia.
Qed.

(** ** The loop over the golden maps *)

Section CopyFacts.

Variable denied : string -> bool.
Variable dir_size : string -> nat.
Variable maps_src maps_dst : string.

Abbreviation copy_one := (Fetcher.copy_one denied dir_size maps_src maps_dst).
Abbreviation settled := (Fetcher.settled dir_size maps_src maps_dst).

(** The three ways one map is handled. *)
Lemma copy_one_cases (f : Fetcher.state) (m : string) :
  Fetcher.steam_path (copy_one f m) = Fetcher.steam_path f
  /\ ((Fetcher.disk (copy_one f m) = Fetcher.disk f
       /\ Fetcher.st (copy_one f m) = Fetcher.bump_failed (Fetcher.st f))
      \/ (Fetcher.disk (copy_one f m) = Fetcher.disk f
          /\ Fetcher.st (copy_one f m) = Fetcher.bump_skipped (Fetcher.st f)
          /\ settled (Fetcher.disk f) m)
      \/ (exists content,
            Fetcher.st (copy_one f m) = Fetcher.bump_copied (Fetcher.st f)
            /\ Fetcher.disk f !! path_join maps_src m
               = Some (Fetcher.RegularFile content)
            /\ Fetcher.disk (copy_one f m)
               = <[ match Fetcher.disk f !! path_join maps_dst m with
                    | Some Fetcher.Directory => path_join (path_join maps_dst m) m
                    | _ => path_join maps_dst m
                    end := Fetcher.RegularFile content ]> (Fetcher.disk f))).
Proof.
  unfold Fetcher.copy_one.
  destruct (Fetcher.path_exists (Fetcher.disk f) (path_join maps_src m)) eqn:Hsrc;
    cbn [negb]; [|split; [reflexivity|left; now split]].
  destruct (Fetcher.path_exists (Fetcher.disk f) (path_join maps_dst m)
            && (_ =? _)%nat) eqn:Hsame.
  - split; [reflexivity|]. right; left. apply andb_true_iff in Hsame as [Hdst Hsize].
    apply Nat.eqb_eq in Hsize. repeat split; assumption.
  - unfold Fetcher.copy2, Fetcher.write_file.
    destruct (Fetcher.disk f !! path_join maps_src m) as [[content|]|] eqn:Hlook;
      try (split; [reflexivity|left; now split]).
    set (target := match Fetcher.disk f !! path_join maps_dst m with
                   | Some Fetcher.Directory => path_join (path_join maps_dst m) m
                   | _ => path_join maps_dst m
                   end).
    cbv zeta.
    destruct (bool_decide (target = path_join maps_src m));
      [split; [reflexivity|left; now split]|].
    destruct (Fetcher.disk f !! target) as [[c'|]|];
      try (destruct (denied target));
      try (split; [reflexivity|left; now split]);
      (split; [reflexivity|right; right; exists content; now repeat split]).
Qed.

(** Every map adds one to exactly one counter. *)
Lemma copy_one_total (f : Fetcher.state) (m : string) :
  Fetcher.total (Fetcher.st (copy_one f m)) = S (Fetcher.total (Fetcher.st f))
  /\ (Fetcher.failed (Fetcher.st f)
      <= Fetcher.failed (Fetcher.st (copy_one f m)))%nat
  /\ (Fetcher.copied (Fetcher.st f)
      <= Fetcher.copied (Fetcher.st (copy_one f m)))%nat.
Proof.
  destruct (copy_one_cases f m) as [_ [[_ ->]|[(_ & -> & _)|(c & -> & _)]]];
    unfold Fetcher.total; cbn; lia.
Qed.

Lemma fold_copy_total (maps : list string) (f : Fetcher.state) :
  Fetcher.total (Fetcher.st (fold_left copy_one maps f))
  = (Fetcher.total (Fetcher.st f) + length maps)%nat
  /\ (Fetcher.failed (Fetcher.st f)
      <= Fetcher.failed (Fetcher.st (fold_left copy_one maps f)))%nat
  /\ (Fetcher.copied (Fetcher.st f)
      <= Fetcher.copied (Fetcher.st (fold_left copy_one maps f)))%nat.
Proof.
  revert f. induction maps as [|m maps IH]; intros f; cbn [fold_left length].
  - lia.
  - destruct (IH (copy_one f m)) as (Ht & Hf & Hc).
    destruct (copy_one_total f m) as (Ht1 & Hf1 & Hc1). lia.
Qed.

Lemma fold_copy_steam_path (maps : list string) (f : Fetcher.state) :
  Fetcher.steam_path (fold_left copy_one maps f) = Fetcher.steam_path f.
Proof.
  revert f. induction maps as [|m maps IH]; intros f; [reflexivity|].
  cbn [fold_left]. rewrite IH. apply copy_one_cases.
Qed.

Lemma make_parents_frame (d d' : gmap string Fetcher.node) (ps : list string)
  (p q : string) :
  Fetcher.make_parents denied d ps p = inr d' -> q ∉ ps -> d' !! q = d !! q.
Proof.
  revert d. induction ps as [|a ps IH]; intros d H Hq; cbn in H.
  - now injection H as <-.
  - apply not_elem_of_cons in Hq as [Hqa Hq].
    destruct (d !! a) as [[]|]; try discriminate.
    + now apply IH.
    + destruct (denied a); [discriminate|].
      rewrite (IH _ H Hq). now apply lookup_insert_ne.
Qed.

(** [mkdir] makes the directory, and on its way nothing but parents of
    it: no longer path is touched. *)
Lemma mkdir_cases (d d' : gmap string Fetcher.node) (p : string) :
  Fetcher.mkdir denied d p = inr d' ->
  d' !! p = Some Fetcher.Directory
  /\ forall q, (String.length p < String.length q)%nat -> d' !! q = d !! q.
Proof.
  unfold Fetcher.mkdir. intros H.
  destruct (d !! p) as [[]|] eqn:Hp; try discriminate.
  - injection H as <-. now split.
  - destruct (Fetcher.make_parents denied d (parents p) p) as [e|d0] eqn:Hmake;
      [discriminate|].
    destruct (denied p); [discriminate|]. injection H as <-.
    split; [apply lookup_insert_eq|]. intros q Hq.
    rewrite lookup_insert_ne by (intros ->; lia).
    apply (make_parents_frame _ _ _ _ _ Hmake).
    intros Hin. apply parents_shorter in Hin. lia.
Qed.

Lemma mkdir_existing (d : gmap string Fetcher.node) (p : string) :
  d !! p = Some Fetcher.Directory -> Fetcher.mkdir denied d p = inr d.
Proof. unfold Fetcher.mkdir. now intros ->. Qed.

Lemma write_file_frame (d d' : gmap string Fetcher.node) (p text q : string) :
  Fetcher.write_file denied d p text = inr d' -> q <> p -> d' !! q = d !! q.
Proof.
  unfold Fetcher.write_file. intros H Hq.
  destruct (d !! p) as [[]|]; try discriminate;
    (destruct (denied p); [discriminate|]); injection H as <-;
    now rewrite lookup_insert_ne.
Qed.

(** One map changes the disk at most at its destination, or below it
    when the destination is a directory. *)
Lemma copy_one_frame (f : Fetcher.state) (m q : string) :
  q <> path_join maps_dst m ->
  q <> path_join (path_join maps_dst m) m ->
  Fetcher.disk (copy_one f m) !! q = Fetcher.disk f !! q.
Proof.
  intros H1 H2.
  destruct (copy_one_cases f m)
    as [_ [[-> _]|[(-> & _)|(c & _ & _ & ->)]]]; try reflexivity.
  destruct (Fetcher.disk f !! path_join maps_dst m) as [[]|];
    now rewrite lookup_insert_ne.
Qed.

Lemma fold_copy_frame (maps : list string) (f : Fetcher.state) (q : string) :
  (forall m, q <> path_join maps_dst m) ->
  Fetcher.disk (fold_left copy_one maps f) !! q = Fetcher.disk f !! q.
Proof.
  intros Hq. revert f. induction maps as [|m maps IH]; intros f; [reflexivity|].
  cbn [fold_left]. rewrite IH. apply copy_one_frame; [apply Hq|].
  rewrite path_join_nested. apply Hq.
Qed.

(** When its destination is no directory, a map changes the disk at its
    own destination only, and leaves no directory there. *)
Lemma copy_one_exact (f : Fetcher.state) (m : string) :
  Fetcher.disk f !! path_join maps_dst m <> Some Fetcher.Directory ->
  (forall q, q <> path_join maps_dst m ->
             Fetcher.disk (copy_one f m) !! q = Fetcher.disk f !! q)
  /\ Fetcher.disk (copy_one f m) !! path_join maps_dst m
     <> Some Fetcher.Directory.
Proof.
  intros Hnodir.
  destruct (copy_one_cases f m)
    as [_ [[-> _]|[(-> & _)|(c & _ & _ & ->)]]]; try easy.
  destruct (Fetcher.disk f !! path_join maps_dst m) as [[]|] eqn:Hdst;
    try easy; (split; [intros q Hq; now rewrite lookup_insert_ne
                      |now rewrite lookup_insert_eq]).
Qed.

Lemma settled_ext (d d' : gmap string Fetcher.node) (m : string) :
  d' !! path_join maps_src m = d !! path_join maps_src m ->
  d' !! path_join maps_dst m = d !! path_join maps_dst m ->
  settled d m -> settled d' m.
Proof.
  unfold Fetcher.settled, Fetcher.path_exists, Fetcher.st_size.
  now intros -> ->.
Qed.

(** A settled map stays settled while other maps are handled. *)
Lemma fold_copy_keeps_settled (maps : list string) (f : Fetcher.state) (m : string) :
  m ∉ maps ->
  (forall n, n ∈ maps -> path_join maps_src m <> path_join maps_dst n) ->
  (forall n, n ∈ maps ->
             Fetcher.disk f !! path_join maps_dst n <> Some Fetcher.Directory) ->
  settled (Fetcher.disk f) m ->
  settled (Fetcher.disk (fold_left copy_one maps f)) m.
Proof.
  revert f. induction maps as [|n maps IH]; intros f Hnotin Hsep Hnodir Hset;
    [exact Hset|].
  cbn [fold_left]. apply not_elem_of_cons in Hnotin as [Hmn Hnotin].
  destruct (copy_one_exact f n) as [Hframe Hstill];
    [apply Hnodir, list_elem_of_here|].
  apply IH.
  - exact Hnotin.
  - intros k Hk. now apply Hsep, list_elem_of_further.
  - intros k Hk. destruct (decide (k = n)) as [->|Hkn]; [exact Hstill|].
    rewrite Hframe; [now apply Hnodir, list_elem_of_further|].
    intros E. now apply path_join_inj in E.
  - apply (settled_ext (Fetcher.disk f)); [| |exact Hset].
    + apply Hframe, Hsep, list_elem_of_here.
    + apply Hframe. intros E. now apply path_join_inj in E.
Qed.

(** A run over distinct maps in which nothing failed settles every map. *)
Lemma fold_copy_settles (maps : list string) (f : Fetcher.state) :
  NoDup maps ->
  (forall n m, n ∈ maps -> m ∈ maps ->
               path_join maps_src n <> path_join maps_dst m) ->
  (forall n, n ∈ maps ->
             Fetcher.disk f !! path_join maps_dst n <> Some Fetcher.Directory) ->
  Fetcher.failed (Fetcher.st (fold_left copy_one maps f))
  = Fetcher.failed (Fetcher.st f) ->
  forall m, m ∈ maps ->
            settled (Fetcher.disk (fold_left copy_one maps f)) m.
Proof.
  revert f. induction maps as [|n maps IH];
    intros f Hnodup Hsep Hnodir Hfailed m Hm; [now apply elem_of_nil in Hm|].
  cbn [fold_left] in *.
  apply NoDup_cons in Hnodup as [Hn Hnodup].
  destruct (fold_copy_total maps (copy_one f n)) as (_ & Hmono & _).
  destruct (copy_one_total f n) as (_ & Hmono1 & _).
  destruct (copy_one_exact f n) as [Hframe Hstill];
    [apply Hnodir, list_elem_of_here|].
  assert (Hnodir' : forall k, k ∈ maps ->
            Fetcher.disk (copy_one f n) !! path_join maps_dst k
            <> Some Fetcher.Directory).
  { intros k Hk. rewrite Hframe; [now apply Hnodir, list_elem_of_further|].
    intros E. apply path_join_inj in E. now subst k. }
  apply elem_of_cons in Hm as [->|Hm].
  - apply fold_copy_keeps_settled; [exact Hn| |exact Hnodir'|].
    + intros k Hk. apply Hsep;
        [apply list_elem_of_here|now apply list_elem_of_further].
    + destruct (copy_one_cases f n)
        as [_ [[Hd Hst]|[(Hd & Hst & Hset)|(c & Hst & Hsrc & Hd)]]].
      * rewrite Hst in Hmono. cbn in Hmono. lia.
      * now rewrite Hd.
      * assert (Hne : path_join maps_src n <> path_join maps_dst n)
          by (apply Hsep; apply list_elem_of_here).
        rewrite Hd.
        assert (Htarget : match Fetcher.disk f !! path_join maps_dst n with
                          | Some Fetcher.Directory =>
                              path_join (path_join maps_dst n) n
                          | _ => path_join maps_dst n
                          end = path_join maps_dst n).
        { destruct (Fetcher.disk f !! path_join maps_dst n) as [[]|] eqn:E;
            try reflexivity. exfalso.
          apply (Hnodir n); [apply list_elem_of_here|exact E]. }
        rewrite Htarget.
        unfold Fetcher.settled, Fetcher.path_exists, Fetcher.st_size.
        rewrite lookup_insert_ne by auto. rewrite lookup_insert_eq, Hsrc.
        repeat split; apply bool_decide_eq_true_2; eauto.
  - apply IH; try assumption.
    + intros a b Ha Hb. now apply Hsep; apply list_elem_of_further.
    + lia.
Qed.

(** Settled maps are skipped, all of them, and the disk is not touched. *)
Lemma fold_copy_skips_settled (maps : list string) (f : Fetcher.state) :
  (forall m, m ∈ maps -> settled (Fetcher.disk f) m) ->
  Fetcher.disk (fold_left copy_one maps f) = Fetcher.disk f
  /\ Fetcher.st (fold_left copy_one maps f)
     = Fetcher.mkStats (Fetcher.copied (Fetcher.st f))
         (Fetcher.skipped (Fetcher.st f) + length maps)
         (Fetcher.failed (Fetcher.st f)).
Proof.
  revert f. induction maps as [|m maps IH]; intros f Hall.
  - cbn. rewrite Nat.add_0_r. now destruct (Fetcher.st f).
  - cbn [fold_left length].
    assert (Hone : Fetcher.disk (copy_one f m) = Fetcher.disk f
                   /\ Fetcher.st (copy_one f m)
                      = Fetcher.bump_skipped (Fetcher.st f)).
    { destruct (Hall m) as (Hsrc & Hdst & Hsize); [apply list_elem_of_here|].
      unfold Fetcher.copy_one. rewrite Hsrc, Hdst, Hsize, Nat.eqb_refl.
      cbn. now split. }
    destruct Hone as [Hd Hs].
    destruct (IH (copy_one f m)) as [-> ->].
    + intros k Hk. rewrite Hd. now apply Hall, list_elem_of_further.
    + rewrite Hd, Hs. cbn. split; [reflexivity|]. f_equal. lia.
Qed.

End CopyFacts.

(** ** The search and the whole run *)

(** No Steam location qualifies. *)
Lemma first_steam_none (d : gmap string Fetcher.node) (paths : list string) :
  (forall p, p ∈ paths ->
             Fetcher.path_exists d p = false
             \/ Fetcher.path_exists d (path_join p "steamapps") = false) ->
  Fetcher.first_steam d paths = None.
Proof.
  induction paths as [|p paths IH]; intros H; [reflexivity|]. cbn.
  destruct (H p) as [-> | ->]; [apply list_elem_of_here| |];
    rewrite ?andb_false_r; cbn; apply IH; intros q Hq;
    now apply H, list_elem_of_further.
Qed.

(** No directory name of the game qualifies. *)
Lemma first_game_none (the_game : Fetcher.game) (d : gmap string Fetcher.node)
  (common : string) (names : list string) :
  (forall n, n ∈ names ->
     Fetcher.path_exists d (path_join common n) = false
     \/ Fetcher.path_exists d
          (path_join (path_join common n)
             (Fetcher.maps_dir (Fetcher.GAME_CONFIGS the_game))) = false) ->
  Fetcher.first_game the_game d common names = None.
Proof.
  induction names as [|n names IH]; intros H; [reflexivity|]. cbn.
  destruct (H n) as [-> | ->]; [apply list_elem_of_here| |];
    rewrite ?andb_false_r; cbn; apply IH; intros q Hq;
    now apply H, list_elem_of_further.
Qed.

Section FetchFacts.

Variable search_paths : list string.
Variable denied : string -> bool.
Variable dir_size : string -> nat.
Variable dump_manifest : Fetcher.game -> option string -> Fetcher.stats -> string.
Variable the_game : Fetcher.game.
Variable output_dir : string.

Abbreviation fetch :=
  (Fetcher.fetch search_paths denied dir_size dump_manifest the_game output_dir).

Lemma fetch_found (d : gmap string Fetcher.node) (steam game_path : string) :
  Fetcher.first_steam d search_paths = Some steam ->
  Fetcher.first_game the_game d (path_join steam "steamapps/common")
    (Fetcher.game_dirs the_game) = Some game_path ->
  fetch (Fetcher.init d)
  = match Fetcher.copy_golden_maps denied dir_size the_game output_dir
            game_path (Fetcher.found d steam game_path) with
    | inl e => (inl e, Fetcher.found d steam game_path)
    | inr f3 =>
        match Fetcher.create_manifest denied dump_manifest the_game output_dir f3 with
        | inl e => (inl e, f3)
        | inr f4 =>
            (inr (Fetcher.failed (Fetcher.st (Fetcher.print_summary f4)) =? 0)%nat,
             Fetcher.print_summary f4)
        end
    end.
Proof.
  intros Hsteam Hgame.
  unfold Fetcher.fetch, Fetcher.find_steam_installation, Fetcher.init.
  cbn [Fetcher.disk]. rewrite Hsteam. cbn [negb].
  unfold Fetcher.find_game_directory. cbn [Fetcher.say Fetcher.steam_path Fetcher.disk].
  now rewrite Hgame.
Qed.

End FetchFacts.

Lemma golden_maps_distinct (g : Fetcher.game) :
  NoDup (Fetcher.golden_maps (Fetcher.GAME_CONFIGS g)).
Proof.
  destruct g; apply (bool_decide_unpack (NoDup _)); vm_compute; exact I.
Qed.

(** ** The copy of the golden maps *)

(** [copy_golden_maps] accounts for every golden map exactly once: when
    it returns, copied + skipped + failed has grown by the number of
    golden maps of the game, five for Team Fortress 2 and four for
    Half-Life 2: Deathmatch. *)
Theorem copy_golden_maps_counts_every_map
  (denied : string -> bool) (dir_size : string -> nat) (g : Fetcher.game)
  (output_dir game_path : string) (f f' : Fetcher.state) :
  Fetcher.copy_golden_maps denied dir_size g output_dir game_path f = inr f' ->
  Fetcher.total (Fetcher.st f')
  = (Fetcher.total (Fetcher.st f)
     + match g with Fetcher.TF => 5 | Fetcher.HL2MP => 4 end)%nat.
Proof.
  unfold Fetcher.copy_golden_maps, Fetcher.copy_all.
  destruct (Fetcher.mkdir _ _ _) as [e|d]; [discriminate|].
  intros [= <-].
  destruct (fold_copy_total denied dir_size
              (path_join game_path (Fetcher.maps_dir (Fetcher.GAME_CONFIGS g)))
              (path_join output_dir "maps")
              (Fetcher.golden_maps (Fetcher.GAME_CONFIGS g))
              (Fetcher.mkFetcher d (Fetcher.steam_path f) (Fetcher.st f)
                 (Fetcher.console f))) as [-> _].
  now destruct g.
Qed.

(** [copy_golden_maps_counts_every_map] on a first run with every map
    installed. *)
Lemma copy_golden_maps_counts_every_map_witness :
  Fetcher.copy_golden_maps (fun _ => false) (fun _ => 4096%nat) Fetcher.HL2MP
    "golden_content" Fetcher.hl2mp_path (Fetcher.init Fetcher.hl2mp_disk)
  = inr Fetcher.sample_run
  /\ Fetcher.total (Fetcher.st Fetcher.sample_run) = 4%nat.
Proof.
  assert (H : Fetcher.copy_golden_maps (fun _ => false) (fun _ => 4096%nat)
                Fetcher.HL2MP "golden_content" Fetcher.hl2mp_path
                (Fetcher.init Fetcher.hl2mp_disk) = inr Fetcher.sample_run)
    by reflexivity.
  split; [exact H|].
  exact (copy_golden_maps_counts_every_map _ _ Fetcher.HL2MP _ _ _ _ H).
Defined.

(** After a call of [copy_golden_maps] that added no failure, every
    golden map is in place: its source and its destination exist and
    have the same size.  No installed map may be a destination, and no
    destination may be a directory (there [shutil.copy2] copies into
    the directory, and the destination keeps its size). *)
Theorem copy_golden_maps_settles
  (denied : string -> bool) (dir_size : string -> nat) (g : Fetcher.game)
  (output_dir game_path : string) (f f' : Fetcher.state) :
  let maps_src := path_join game_path (Fetcher.maps_dir (Fetcher.GAME_CONFIGS g)) in
  let maps_dst := path_join output_dir "maps" in
  (forall n m, n ∈ Fetcher.golden_maps (Fetcher.GAME_CONFIGS g) ->
               m ∈ Fetcher.golden_maps (Fetcher.GAME_CONFIGS g) ->
               path_join maps_src n <> path_join maps_dst m) ->
  (forall m, m ∈ Fetcher.golden_maps (Fetcher.GAME_CONFIGS g) ->
             Fetcher.disk f !! path_join maps_dst m <> Some Fetcher.Directory) ->
  Fetcher.copy_golden_maps denied dir_size g output_dir game_path f = inr f' ->
  Fetcher.failed (Fetcher.st f') = Fetcher.failed (Fetcher.st f) ->
  forall m, m ∈ Fetcher.golden_maps (Fetcher.GAME_CONFIGS g) ->
            Fetcher.settled dir_size maps_src maps_dst (Fetcher.disk f') m.
Proof.
  intros maps_src maps_dst Hsep Hnodir Hrun Hfailed m Hm.
  unfold Fetcher.copy_golden_maps, Fetcher.copy_all in Hrun.
  fold maps_src maps_dst in Hrun.
  destruct (Fetcher.mkdir denied (Fetcher.disk f) maps_dst) as [e|d1] eqn:Hmk;
    [discriminate|].
  injection Hrun as <-.
  destruct (mkdir_cases _ _ _ _ Hmk) as [_ Hframe].
  apply fold_copy_settles; try assumption.
  - apply golden_maps_distinct.
  - intros n Hn. cbn [Fetcher.disk].
    rewrite Hframe by apply path_join_grows. now apply Hnodir.
Qed.

(** [copy_golden_maps_settles] on a first run with every map installed. *)
Lemma copy_golden_maps_settles_witness :
  Fetcher.failed (Fetcher.st Fetcher.sample_run) = 0%nat
  /\ Fetcher.settled (fun _ => 4096%nat)
       (path_join Fetcher.hl2mp_path "hl2mp/maps") (path_join "golden_content" "maps")
       (Fetcher.disk Fetcher.sample_run) "dm_lockdown.bsp".
Proof.
  split; [vm_compute; reflexivity|].
  apply (copy_golden_maps_settles (fun _ => false) (fun _ => 4096%nat)
           Fetcher.HL2MP "golden_content" Fetcher.hl2mp_path
           (Fetcher.init Fetcher.hl2mp_disk) Fetcher.sample_run).
  - intros n m _ _ E. vm_compute in E. discriminate.
  - intros m Hm. cbn in Hm.
    repeat (apply elem_of_cons in Hm as [->|Hm]);
      try (now apply elem_of_nil in Hm); vm_compute; discriminate.
  - reflexivity.
  - reflexivity.
  - apply list_elem_of_here.
Defined.

(** A map is skipped on the sizes alone: when every golden map has a
    destination of the size of its source, [copy_golden_maps] returns,
    counts every map as skipped and leaves the disk as it is, whatever
    the destinations hold. *)
Theorem copy_golden_maps_skips_settled
  (denied : string -> bool) (dir_size : string -> nat) (g : Fetcher.game)
  (output_dir game_path : string) (f : Fetcher.state) :
  let maps_src := path_join game_path (Fetcher.maps_dir (Fetcher.GAME_CONFIGS g)) in
  let maps_dst := path_join output_dir "maps" in
  Fetcher.disk f !! maps_dst = Some Fetcher.Directory ->
  (forall m, m ∈ Fetcher.golden_maps (Fetcher.GAME_CONFIGS g) ->
             Fetcher.settled dir_size maps_src maps_dst (Fetcher.disk f) m) ->
  exists f',
    Fetcher.copy_golden_maps denied dir_size g output_dir game_path f = inr f'
    /\ Fetcher.disk f' = Fetcher.disk f
    /\ Fetcher.st f'
       = Fetcher.mkStats (Fetcher.copied (Fetcher.st f))
           (Fetcher.skipped (Fetcher.st f)
            + length (Fetcher.golden_maps (Fetcher.GAME_CONFIGS g)))
           (Fetcher.failed (Fetcher.st f)).
Proof.
  intros maps_src maps_dst Hdir Hall.
  unfold Fetcher.copy_golden_maps, Fetcher.copy_all. fold maps_src maps_dst.
  rewrite (mkdir_existing _ _ _ Hdir).
  eexists. split; [reflexivity|].
  apply (fold_copy_skips_settled denied dir_size maps_src maps_dst
           (Fetcher.golden_maps (Fetcher.GAME_CONFIGS g))
           (Fetcher.mkFetcher (Fetcher.disk f) (Fetcher.steam_path f)
              (Fetcher.st f) (Fetcher.console f))).
  exact Hall.
Qed.

(** [copy_golden_maps_skips_settled] on a disk whose output maps have
    the right sizes and another content. *)
Lemma copy_golden_maps_skips_settled_witness :
  Fetcher.stale_disk !! "golden_content/maps/dm_runoff.bsp"
  = Some (Fetcher.RegularFile "RUNOFF")
  /\ exists f',
       Fetcher.copy_golden_maps (fun _ => false) (fun _ => 4096%nat)
         Fetcher.HL2MP "golden_content" Fetcher.hl2mp_path
         (Fetcher.init Fetcher.stale_disk) = inr f'
       /\ Fetcher.disk f' = Fetcher.stale_disk
       /\ Fetcher.st f' = Fetcher.mkStats 0 4 0.
Proof.
  split; [vm_compute; reflexivity|].
  apply (copy_golden_maps_skips_settled (fun _ => false) (fun _ => 4096%nat)
           Fetcher.HL2MP "golden_content" Fetcher.hl2mp_path
           (Fetcher.init Fetcher.stale_disk)).
  - vm_compute. reflexivity.
  - intros m Hm. cbn in Hm.
    repeat (apply elem_of_cons in Hm as [->|Hm]);
      try (now apply elem_of_nil in Hm); vm_compute; repeat split; reflexivity.
Defined.

(** Running [copy_golden_maps] again after a call that added no failure
    copies nothing: the second call returns, skips every golden map and
    leaves the disk as the first call left it. *)
Theorem copy_golden_maps_again
  (denied : string -> bool) (dir_size : string -> nat) (g : Fetcher.game)
  (output_dir game_path : string) (f f' : Fetcher.state) :
  let maps_src := path_join game_path (Fetcher.maps_dir (Fetcher.GAME_CONFIGS g)) in
  let maps_dst := path_join output_dir "maps" in
  (forall n m, n ∈ Fetcher.golden_maps (Fetcher.GAME_CONFIGS g) ->
               m ∈ Fetcher.golden_maps (Fetcher.GAME_CONFIGS g) ->
               path_join maps_src n <> path_join maps_dst m) ->
  (forall m, m ∈ Fetcher.golden_maps (Fetcher.GAME_CONFIGS g) ->
             Fetcher.disk f !! path_join maps_dst m <> Some Fetcher.Directory) ->
  Fetcher.copy_golden_maps denied dir_size g output_dir game_path f = inr f' ->
  Fetcher.failed (Fetcher.st f') = Fetcher.failed (Fetcher.st f) ->
  exists f'',
    Fetcher.copy_golden_maps denied dir_size g output_dir game_path f' = inr f''
    /\ Fetcher.disk f'' = Fetcher.disk f'
    /\ Fetcher.copied (Fetcher.st f'') = Fetcher.copied (Fetcher.st f')
    /\ Fetcher.failed (Fetcher.st f'') = Fetcher.failed (Fetcher.st f')
    /\ Fetcher.skipped (Fetcher.st f'')
       = (Fetcher.skipped (Fetcher.st f')
          + length (Fetcher.golden_maps (Fetcher.GAME_CONFIGS g)))%nat.
Proof.
  intros maps_src maps_dst Hsep Hnodir Hrun Hfailed.
  unfold Fetcher.copy_golden_maps, Fetcher.copy_all in *.
  fold maps_src maps_dst in Hrun. fold maps_src maps_dst.
  destruct (Fetcher.mkdir denied (Fetcher.disk f) maps_dst) as [e|d1] eqn:Hmk;
    [discriminate|].
  injection Hrun as <-.
  destruct (mkdir_cases _ _ _ _ Hmk) as [Hdir Hframe].
  set (f1 := Fetcher.mkFetcher d1 (Fetcher.steam_path f) (Fetcher.st f)
               (Fetcher.console f)) in *.
  set (maps := Fetcher.golden_maps (Fetcher.GAME_CONFIGS g)) in *.
  set (f2 := fold_left (Fetcher.copy_one denied dir_size maps_src maps_dst) maps f1)
    in *.
  assert (Hdir2 : Fetcher.disk f2 !! maps_dst = Some Fetcher.Directory).
  { unfold f2. rewrite fold_copy_frame; [exact Hdir|].
    intros m E. symmetry in E. now apply path_join_longer in E. }
  assert (Hall : forall m, m ∈ maps ->
            Fetcher.settled dir_size maps_src maps_dst (Fetcher.disk f2) m).
  { apply fold_copy_settles; try assumption.
    - apply golden_maps_distinct.
    - intros n Hn. cbn [Fetcher.disk f1].
      rewrite Hframe by apply path_join_grows. now apply Hnodir. }
  rewrite (mkdir_existing _ _ _ Hdir2).
  eexists. split; [reflexivity|].
  destruct (fold_copy_skips_settled denied dir_size maps_src maps_dst maps
              (Fetcher.mkFetcher (Fetcher.disk f2) (Fetcher.steam_path f2)
                 (Fetcher.st f2) (Fetcher.console f2)) Hall) as [-> ->].
  cbn. auto.
Qed.

(** [copy_golden_maps_again] after a first run with every map
    installed. *)
Lemma copy_golden_maps_again_witness :
  Fetcher.failed (Fetcher.st Fetcher.sample_run) = 0%nat
  /\ exists f'',
       Fetcher.copy_golden_maps (fun _ => false) (fun _ => 4096%nat)
         Fetcher.HL2MP "golden_content" Fetcher.hl2mp_path Fetcher.sample_run
       = inr f''
       /\ Fetcher.disk f'' = Fetcher.disk Fetcher.sample_run
       /\ Fetcher.copied (Fetcher.st f'') = Fetcher.copied (Fetcher.st Fetcher.sample_run)
       /\ Fetcher.failed (Fetcher.st f'') = Fetcher.failed (Fetcher.st Fetcher.sample_run)
       /\ Fetcher.skipped (Fetcher.st f'')
          = (Fetcher.skipped (Fetcher.st Fetcher.sample_run) + 4)%nat.
Proof.
  split; [vm_compute; reflexivity|].
  apply (copy_golden_maps_again (fun _ => false) (fun _ => 4096%nat)
           Fetcher.HL2MP "golden_content" Fetcher.hl2mp_path
           (Fetcher.init Fetcher.hl2mp_disk) Fetcher.sample_run).
  - intros n m _ _ E. vm_compute in E. discriminate.
  - intros m Hm. cbn in Hm.
    repeat (apply elem_of_cons in Hm as [->|Hm]);
      try (now apply elem_of_nil in Hm); vm_compute; discriminate.
  - reflexivity.
  - reflexivity.
Defined.

(** ** The whole run *)

(** Without a Steam location that exists and holds [steamapps], [fetch]
    returns false, the disk is left as it was and the process exits
    with status 1. *)
Theorem fetch_without_steam
  (search_paths : list string) (denied : string -> bool) (dir_size : string -> nat)
  (dump_manifest : Fetcher.game -> option string -> Fetcher.stats -> string)
  (g : Fetcher.game) (output_dir : string) (d : gmap string Fetcher.node) :
  (forall p, p ∈ search_paths ->
             Fetcher.path_exists d p = false
             \/ Fetcher.path_exists d (path_join p "steamapps") = false) ->
  let out := Fetcher.fetch search_paths denied dir_size dump_manifest g
               output_dir (Fetcher.init d) in
  fst out = inr false
  /\ Fetcher.disk (snd out) = d
  /\ Fetcher.st (snd out) = Fetcher.mkStats 0 0 0
  /\ Fetcher.main search_paths denied dir_size dump_manifest g output_dir d = 1.
Proof.
  intros Hnone. apply first_steam_none in Hnone.
  unfold Fetcher.main, Fetcher.fetch, Fetcher.find_steam_installation, Fetcher.init.
  cbn [Fetcher.disk]. rewrite Hnone. cbn. auto.
Qed.

(** [fetch_without_steam] on a machine whose Steam is somewhere else. *)
Lemma fetch_without_steam_witness :
  let out := Fetcher.fetch ["/opt/steam"] (fun _ => false) (fun _ => 4096%nat)
               Fetcher.sample_dump Fetcher.TF "golden_content"
               (Fetcher.init Fetcher.sample_disk) in
  fst out = inr false
  /\ Fetcher.disk (snd out) = Fetcher.sample_disk
  /\ Fetcher.st (snd out) = Fetcher.mkStats 0 0 0
  /\ Fetcher.main ["/opt/steam"] (fun _ => false) (fun _ => 4096%nat)
       Fetcher.sample_dump Fetcher.TF "golden_content" Fetcher.sample_disk = 1.
Proof.
  apply (fetch_without_steam ["/opt/steam"] (fun _ => false) (fun _ => 4096%nat)
           Fetcher.sample_dump Fetcher.TF "golden_content" Fetcher.sample_disk).
  intros p Hp. apply list_elem_of_singleton in Hp as ->. left.
  vm_compute. reflexivity.
Defined.

(** With Steam found and no directory of the game that exists and holds
    the game's maps directory, [fetch] returns false, the disk is left
    as it was and the process exits with status 1. *)
Theorem fetch_without_game
  (search_paths : list string) (denied : string -> bool) (dir_size : string -> nat)
  (dump_manifest : Fetcher.game -> option string -> Fetcher.stats -> string)
  (g : Fetcher.game) (output_dir : string) (d : gmap string Fetcher.node)
  (steam : string) :
  Fetcher.first_steam d search_paths = Some steam ->
  (forall n, n ∈ Fetcher.game_dirs g ->
     let game_path := path_join (path_join steam "steamapps/common") n in
     Fetcher.path_exists d game_path = false
     \/ Fetcher.path_exists d
          (path_join game_path (Fetcher.maps_dir (Fetcher.GAME_CONFIGS g))) = false) ->
  let out := Fetcher.fetch search_paths denied dir_size dump_manifest g
               output_dir (Fetcher.init d) in
  fst out = inr false
  /\ Fetcher.disk (snd out) = d
  /\ Fetcher.st (snd out) = Fetcher.mkStats 0 0 0
  /\ Fetcher.main search_paths denied dir_size dump_manifest g output_dir d = 1.
Proof.
  intros Hsteam Hnone. apply first_game_none in Hnone.
  unfold Fetcher.main, Fetcher.fetch, Fetcher.find_steam_installation, Fetcher.init.
  cbn [Fetcher.disk]. rewrite Hsteam. cbn [negb].
  unfold Fetcher.find_game_directory.
  cbn [Fetcher.say Fetcher.steam_path Fetcher.disk]. rewrite Hnone. cbn. auto.
Qed.

(** [fetch_without_game] on a machine with Team Fortress 2 only. *)
Lemma fetch_without_game_witness :
  let out := Fetcher.fetch Fetcher.sample_paths (fun _ => false) (fun _ => 4096%nat)
               Fetcher.sample_dump Fetcher.HL2MP "golden_content"
               (Fetcher.init Fetcher.sample_disk) in
  fst out = inr false
  /\ Fetcher.disk (snd out) = Fetcher.sample_disk
  /\ Fetcher.st (snd out) = Fetcher.mkStats 0 0 0
  /\ Fetcher.main Fetcher.sample_paths (fun _ => false) (fun _ => 4096%nat)
       Fetcher.sample_dump Fetcher.HL2MP "golden_content" Fetcher.sample_disk = 1.
Proof.
  apply (fetch_without_game Fetcher.sample_paths (fun _ => false)
           (fun _ => 4096%nat) Fetcher.sample_dump Fetcher.HL2MP "golden_content"
           Fetcher.sample_disk "/home/dev/.steam/steam").
  - vm_compute. reflexivity.
  - intros n Hn. cbn in Hn.
    repeat (apply elem_of_cons in Hn as [->|Hn]);
      try (now apply elem_of_nil in Hn); left; vm_compute; reflexivity.
Defined.

(** When a regular file sits where the maps directory goes, [mkdir]
    raises [FileExistsError]: [fetch] returns nothing, no map is handled,
    the disk is left as it was and the process exits with status 1. *)
Theorem fetch_stops_at_maps_file
  (search_paths : list string) (denied : string -> bool) (dir_size : string -> nat)
  (dump_manifest : Fetcher.game -> option string -> Fetcher.stats -> string)
  (g : Fetcher.game) (output_dir : string) (d : gmap string Fetcher.node)
  (steam game_path content : string) :
  Fetcher.first_steam d search_paths = Some steam ->
  Fetcher.first_game g d (path_join steam "steamapps/common") (Fetcher.game_dirs g)
  = Some game_path ->
  d !! path_join output_dir "maps" = Some (Fetcher.RegularFile content) ->
  let out := Fetcher.fetch search_paths denied dir_size dump_manifest g
               output_dir (Fetcher.init d) in
  fst out = inl (Fetcher.FileExistsError (path_join output_dir "maps"))
  /\ Fetcher.disk (snd out) = d
  /\ Fetcher.st (snd out) = Fetcher.mkStats 0 0 0
  /\ Fetcher.main search_paths denied dir_size dump_manifest g output_dir d = 1.
Proof.
  intros Hsteam Hgame Hfile. unfold Fetcher.main.
  rewrite (fetch_found _ _ _ _ _ _ _ _ _ Hsteam Hgame).
  unfold Fetcher.copy_golden_maps, Fetcher.mkdir.
  cbn [Fetcher.found Fetcher.say Fetcher.disk]. rewrite Hfile. cbn. auto.
Qed.

(** [fetch_stops_at_maps_file] on a machine with such a file. *)
Lemma fetch_stops_at_maps_file_witness :
  let out := Fetcher.fetch Fetcher.sample_paths (fun _ => false) (fun _ => 4096%nat)
               Fetcher.sample_dump Fetcher.HL2MP "golden_content"
               (Fetcher.init Fetcher.clogged_disk) in
  fst out = inl (Fetcher.FileExistsError (path_join "golden_content" "maps"))
  /\ Fetcher.disk (snd out) = Fetcher.clogged_disk
  /\ Fetcher.st (snd out) = Fetcher.mkStats 0 0 0
  /\ Fetcher.main Fetcher.sample_paths (fun _ => false) (fun _ => 4096%nat)
       Fetcher.sample_dump Fetcher.HL2MP "golden_content" Fetcher.clogged_disk = 1.
Proof.
  apply (fetch_stops_at_maps_file Fetcher.sample_paths (fun _ => false)
           (fun _ => 4096%nat) Fetcher.sample_dump Fetcher.HL2MP "golden_content"
           Fetcher.clogged_disk "/home/dev/.local/share/Steam" Fetcher.hl2mp_path "");
    vm_compute; reflexivity.
Defined.

(** When a directory sits where the manifest goes, every golden map is
    handled first and then [create_manifest] raises
    [IsADirectoryError]: [fetch] returns nothing, no summary is printed
    and the process exits with status 1, whatever was copied. *)
Theorem fetch_stops_at_manifest_directory
  (search_paths : list string) (denied : string -> bool) (dir_size : string -> nat)
  (dump_manifest : Fetcher.game -> option string -> Fetcher.stats -> string)
  (g : Fetcher.game) (output_dir : string) (d d1 : gmap string Fetcher.node)
  (steam game_path : string) :
  Fetcher.first_steam d search_paths = Some steam ->
  Fetcher.first_game g d (path_join steam "steamapps/common") (Fetcher.game_dirs g)
  = Some game_path ->
  Fetcher.mkdir denied d (path_join output_dir "maps") = inr d1 ->
  d !! path_join output_dir "manifest.json" = Some Fetcher.Directory ->
  let out := Fetcher.fetch search_paths denied dir_size dump_manifest g
               output_dir (Fetcher.init d) in
  fst out = inl (Fetcher.IsADirectoryError (path_join output_dir "manifest.json"))
  /\ Fetcher.total (Fetcher.st (snd out))
     = length (Fetcher.golden_maps (Fetcher.GAME_CONFIGS g))
  /\ Fetcher.main search_paths denied dir_size dump_manifest g output_dir d = 1.
Proof.
  intros Hsteam Hgame Hmk Hdir. unfold Fetcher.main.
  rewrite (fetch_found _ _ _ _ _ _ _ _ _ Hsteam Hgame).
  unfold Fetcher.copy_golden_maps, Fetcher.copy_all.
  cbn [Fetcher.found Fetcher.say Fetcher.disk Fetcher.steam_path Fetcher.st
       Fetcher.console].
  rewrite Hmk.
  destruct (mkdir_cases _ _ _ _ Hmk) as [_ Hframe].
  set (f3 := fold_left _ _ _).
  assert (Hdir3 : Fetcher.disk f3 !! path_join output_dir "manifest.json"
                  = Some Fetcher.Directory).
  { unfold f3. rewrite fold_copy_frame by apply manifest_is_no_map.
    cbn [Fetcher.disk].
    now rewrite Hframe by apply manifest_is_longer. }
  unfold Fetcher.create_manifest, Fetcher.write_file. rewrite Hdir3.
  cbn [fst snd]. repeat split.
  unfold f3. now rewrite (proj1 (fold_copy_total denied dir_size _ _ _ _)).
Qed.

(** [fetch_stops_at_manifest_directory] on a machine with such a
    directory and every map installed. *)
Lemma fetch_stops_at_manifest_directory_witness :
  let out := Fetcher.fetch Fetcher.sample_paths (fun _ => false) (fun _ => 4096%nat)
               Fetcher.sample_dump Fetcher.HL2MP "golden_content"
               (Fetcher.init Fetcher.blocked_disk) in
  fst out = inl (Fetcher.IsADirectoryError (path_join "golden_content" "manifest.json"))
  /\ Fetcher.total (Fetcher.st (snd out))
     = length (Fetcher.golden_maps (Fetcher.GAME_CONFIGS Fetcher.HL2MP))
  /\ Fetcher.main Fetcher.sample_paths (fun _ => false) (fun _ => 4096%nat)
       Fetcher.sample_dump Fetcher.HL2MP "golden_content" Fetcher.blocked_disk = 1.
Proof.
  apply (fetch_stops_at_manifest_directory Fetcher.sample_paths (fun _ => false)
           (fun _ => 4096%nat) Fetcher.sample_dump Fetcher.HL2MP "golden_content"
           Fetcher.blocked_disk
           (<[ "golden_content/maps" := Fetcher.Directory ]>
              (<[ "golden_content" := Fetcher.Directory ]> Fetcher.blocked_disk))
           "/home/dev/.local/share/Steam" Fetcher.hl2mp_path);
    reflexivity.
Defined.

(** When [fetch] returns true, and so when the process exits with
    status 0, every golden map is in place at the end: its source and
    its destination exist and have the same size.  No installed map may
    be a destination or the manifest, and no destination may be a
    directory at the start. *)
Theorem successful_fetch_settles_every_map
  (search_paths : list string) (denied : string -> bool) (dir_size : string -> nat)
  (dump_manifest : Fetcher.game -> option string -> Fetcher.stats -> string)
  (g : Fetcher.game) (output_dir : string) (d : gmap string Fetcher.node)
  (steam game_path : string) :
  let maps_src := path_join game_path (Fetcher.maps_dir (Fetcher.GAME_CONFIGS g)) in
  let maps_dst := path_join output_dir "maps" in
  let out := Fetcher.fetch search_paths denied dir_size dump_manifest g
               output_dir (Fetcher.init d) in
  Fetcher.first_steam d search_paths = Some steam ->
  Fetcher.first_game g d (path_join steam "steamapps/common") (Fetcher.game_dirs g)
  = Some game_path ->
  (forall n m, n ∈ Fetcher.golden_maps (Fetcher.GAME_CONFIGS g) ->
               m ∈ Fetcher.golden_maps (Fetcher.GAME_CONFIGS g) ->
               path_join maps_src n <> path_join maps_dst m) ->
  (forall m, m ∈ Fetcher.golden_maps (Fetcher.GAME_CONFIGS g) ->
             path_join maps_src m <> path_join output_dir "manifest.json") ->
  (forall m, m ∈ Fetcher.golden_maps (Fetcher.GAME_CONFIGS g) ->
             d !! path_join maps_dst m <> Some Fetcher.Directory) ->
  fst out = inr true ->
  forall m, m ∈ Fetcher.golden_maps (Fetcher.GAME_CONFIGS g) ->
            Fetcher.settled dir_size maps_src maps_dst (Fetcher.disk (snd out)) m.
Proof.
  intros maps_src maps_dst out Hsteam Hgame Hsep Hman Hnodir Hok m Hm.
  unfold out in *. clear out.
  rewrite (fetch_found _ _ _ _ _ _ _ _ _ Hsteam Hgame) in *.
  unfold Fetcher.copy_golden_maps, Fetcher.copy_all in *.
  fold maps_src maps_dst in Hok. fold maps_src maps_dst.
  cbn [Fetcher.found Fetcher.say Fetcher.disk Fetcher.steam_path Fetcher.st
       Fetcher.console] in *.
  destruct (Fetcher.mkdir denied d maps_dst) as [e|d1] eqn:Hmk; [discriminate|].
  destruct (mkdir_cases _ _ _ _ Hmk) as [_ Hframe].
  set (f1 := Fetcher.mkFetcher d1 _ _ _) in *.
  set (f3 := fold_left _ _ f1) in *.
  unfold Fetcher.create_manifest in *.
  destruct (Fetcher.write_file denied (Fetcher.disk f3) _ _) as [e|d4] eqn:Hwrite;
    [discriminate|].
  cbn [fst snd Fetcher.print_summary Fetcher.say Fetcher.disk Fetcher.st] in *.
  injection Hok as Hzero. apply Nat.eqb_eq in Hzero.
  assert (Hset : Fetcher.settled dir_size maps_src maps_dst (Fetcher.disk f3) m).
  { apply fold_copy_settles; try assumption.
    - apply golden_maps_distinct.
    - intros n Hn. cbn [Fetcher.disk f1].
      rewrite Hframe by apply path_join_grows. now apply Hnodir. }
  apply (settled_ext _ _ _ (Fetcher.disk f3)); [| |exact Hset].
  - apply (write_file_frame _ _ _ _ _ _ Hwrite). now apply Hman.
  - apply (write_file_frame _ _ _ _ _ _ Hwrite).
    intros E. symmetry in E. now apply manifest_is_no_map in E.
Qed.

(** [successful_fetch_settles_every_map] on a machine with every map
    installed. *)
Lemma successful_fetch_settles_every_map_witness :
  let out := Fetcher.fetch Fetcher.sample_paths (fun _ => false) (fun _ => 4096%nat)
               Fetcher.sample_dump Fetcher.HL2MP "golden_content"
               (Fetcher.init Fetcher.hl2mp_disk) in
  fst out = inr true
  /\ Fetcher.settled (fun _ => 4096%nat)
       (path_join Fetcher.hl2mp_path "hl2mp/maps") (path_join "golden_content" "maps")
       (Fetcher.disk (snd out)) "dm_runoff.bsp".
Proof.
  split; [vm_compute; reflexivity|].
  apply (successful_fetch_settles_every_map Fetcher.sample_paths (fun _ => false)
           (fun _ => 4096%nat) Fetcher.sample_dump Fetcher.HL2MP "golden_content"
           Fetcher.hl2mp_disk "/home/dev/.local/share/Steam" Fetcher.hl2mp_path).
  - vm_compute. reflexivity.
  - vm_compute. reflexivity.
  - intros n m _ _ E. vm_compute in E. discriminate.
  - intros m _ E. vm_compute in E. discriminate.
  - intros m Hm. cbn in Hm.
    repeat (apply elem_of_cons in Hm as [->|Hm]);
      try (now apply elem_of_nil in Hm); vm_compute; discriminate.
  - vm_compute. reflexivity.
  - cbn. rewrite !elem_of_cons. auto.
Defined.
